(** * Decree pipeline: segmentation, extraction loop and reconciliation

    A shallow embedding of [analisador_ver3.py] / [analisador_ver4.py]
    (and of the block filter of [analisador_ver2.py]).

    Python strings are sequences of Unicode code points; they are modelled
    as lists of code points, so that [re]'s character classes, [str.strip]
    and the ordering used by [sorted] are the ones Python applies. *)

From Stdlib Require Import List NArith ZArith Bool Lia String Ascii.
From Stdlib Require Import Sorting.Sorted Sorting.Permutation Sorting.Mergesort.
From Stdlib Require Import Structures.Orders.
From Stdlib Require Import DecimalPos DecimalN.
Import ListNotations.

Local Open Scope N_scope.
Local Open Scope list_scope.

(** ** Strings *)

Definition char := N.
Definition str := list char.

(** Decoding of a UTF-8 literal into code points (used only to write the
    program's string constants). *)
Fixpoint decode_utf8 (bs : list N) : str :=
  match bs with
  | [] => []
  | b1 :: r1 =>
    if b1 <? 192 then b1 :: decode_utf8 r1
    else match r1 with
    | [] => [b1]
    | b2 :: r2 =>
      if b1 <? 224 then ((b1 - 192) * 64 + (b2 - 128)) :: decode_utf8 r2
      else match r2 with
      | [] => [b1; b2]
      | b3 :: r3 =>
        if b1 <? 240
        then ((b1 - 224) * 4096 + (b2 - 128) * 64 + (b3 - 128)) :: decode_utf8 r3
        else match r3 with
        | [] => [b1; b2; b3]
        | b4 :: r4 =>
          ((b1 - 240) * 262144 + (b2 - 128) * 4096 + (b3 - 128) * 64 + (b4 - 128))
            :: decode_utf8 r4
        end
      end
    end
  end.

Definition lit (s : string) : str :=
  decode_utf8 (List.map (fun a => N_of_ascii a) (list_ascii_of_string s)).

Definition char_eqb (a b : char) : bool := N.eqb a b.

Fixpoint str_eqb (a b : str) : bool :=
  match a, b with
  | [], [] => true
  | x :: a', y :: b' => char_eqb x y && str_eqb a' b'
  | _, _ => false
  end.

(** [s.startswith(p)]. *)
Fixpoint startswith (p s : str) : bool :=
  match p, s with
  | [], _ => true
  | _ :: _, [] => false
  | x :: p', y :: s' => char_eqb x y && startswith p' s'
  end.

(** [p in s] for strings. *)
Fixpoint contains (p s : str) : bool :=
  startswith p s ||
  match s with
  | [] => false
  | _ :: s' => contains p s'
  end.

(** [s.replace(old, new)] for a non-empty [old]: leftmost, non-overlapping.
    [skip] counts the characters of a matched occurrence still to be
    dropped. *)
Fixpoint replace_from (old new : str) (skip : nat) (s : str) : str :=
  match s with
  | [] => []
  | c :: t =>
    match skip with
    | S k => replace_from old new k t
    | O =>
      if startswith old s
      then new ++ replace_from old new (Nat.pred (List.length old)) t
      else c :: replace_from old new O t
    end
  end.

Definition replace (old new s : str) : str :=
  match old with
  | [] => s
  | _ :: _ => replace_from old new O s
  end.

(** [sep.join(xs)]. *)
Fixpoint join (sep : str) (xs : list str) : str :=
  match xs with
  | [] => []
  | [x] => x
  | x :: rest => x ++ sep ++ join sep rest
  end.

(** Python's [str.isspace] on one code point, which is also [\s] of a
    [str] pattern. *)
Definition isspace (c : char) : bool :=
  ((9 <=? c) && (c <=? 13)) || ((28 <=? c) && (c <=? 32)) ||
  (c =? 133) || (c =? 160) || (c =? 5760) ||
  ((8192 <=? c) && (c <=? 8202)) || (c =? 8232) || (c =? 8233) ||
  (c =? 8239) || (c =? 8287) || (c =? 12288).

Fixpoint lstrip (s : str) : str :=
  match s with
  | [] => []
  | c :: t => if isspace c then lstrip t else s
  end.

Definition rstrip (s : str) : str := rev (lstrip (rev s)).

(** [s.strip()]. *)
Definition strip (s : str) : str := rstrip (lstrip s).

(** Truth value of a string: non-empty. *)
Definition str_truthy (s : str) : bool :=
  match s with [] => false | _ :: _ => true end.

(** ** Exceptions *)

Inductive exn : Type :=
  | InvalidOperation
  | TypeError
  | AttributeError
  | KeyError
  | JSONDecodeError.

Inductive res (A : Type) : Type :=
  | Ok (a : A)
  | Raise (e : exn).
Arguments Ok {A} a.
Arguments Raise {A} e.

Definition bind {A B : Type} (m : res A) (f : A -> res B) : res B :=
  match m with
  | Ok a => f a
  | Raise e => Raise e
  end.

Notation "x <- m ;; k" := (bind m (fun x => k))
  (at level 61, m at next level, right associativity).
Notation "' p <- m ;; k" := (bind m (fun x => match x with p => k end))
  (at level 61, p pattern, m at next level, right associativity).

Fixpoint mapM {A B : Type} (f : A -> res B) (l : list A) : res (list B) :=
  match l with
  | [] => Ok []
  | a :: t => b <- f a ;; bs <- mapM f t ;; Ok (b :: bs)
  end.

(** ** JSON values, as [json.loads] builds them *)

#[warnings="-register-all"]
Inductive json : Type :=
  | JNull
  | JBool (b : bool)
  | JInt (z : Z)
  | JFloat (repr : str)   (* a float, carried by its [repr] *)
  | JStr (s : str)
  | JArr (l : list json)
  | JObj (d : list (str * json)).

Definition dict := list (str * json).

Fixpoint lookup (k : str) (d : dict) : option json :=
  match d with
  | [] => None
  | (k', v) :: d' => if str_eqb k k' then Some v else lookup k d'
  end.

(** [x.get(k)]: only a dict has the method; a missing key gives [None]. *)
Definition get (k : str) (x : json) : res json :=
  match x with
  | JObj d => Ok (match lookup k d with Some v => v | None => JNull end)
  | _ => Raise AttributeError
  end.

(** [x.get(k, default)]. *)
Definition get_default (k : str) (default : json) (x : json) : res json :=
  match x with
  | JObj d => Ok (match lookup k d with Some v => v | None => default end)
  | _ => Raise AttributeError
  end.

(** Truth value of a JSON value. A float is false when it is a zero, whose
    [repr] is [0.0] or [-0.0]. *)
Definition truthy (x : json) : bool :=
  match x with
  | JNull => false
  | JBool b => b
  | JInt z => negb (Z.eqb z 0)
  | JFloat r => negb (str_eqb r (lit "0.0") || str_eqb r (lit "-0.0"))
  | JStr s => str_truthy s
  | JArr l => match l with [] => false | _ :: _ => true end
  | JObj d => match d with [] => false | _ :: _ => true end
  end.

(** ** Decimal digits *)

Fixpoint uint_chars (u : Decimal.uint) : str :=
  match u with
  | Decimal.Nil => []
  | Decimal.D0 r => 48 :: uint_chars r
  | Decimal.D1 r => 49 :: uint_chars r
  | Decimal.D2 r => 50 :: uint_chars r
  | Decimal.D3 r => 51 :: uint_chars r
  | Decimal.D4 r => 52 :: uint_chars r
  | Decimal.D5 r => 53 :: uint_chars r
  | Decimal.D6 r => 54 :: uint_chars r
  | Decimal.D7 r => 55 :: uint_chars r
  | Decimal.D8 r => 56 :: uint_chars r
  | Decimal.D9 r => 57 :: uint_chars r
  end.

Definition str_of_N (n : N) : str := uint_chars (N.to_uint n).

Definition str_of_Z (z : Z) : str :=
  match z with
  | Z0 => [48]
  | Zpos p => str_of_N (Npos p)
  | Zneg p => 45 :: str_of_N (Npos p)
  end.

(** ** Ordering of strings and [sorted] *)

(** [a <= b] on strings: lexicographic on code points. *)
Fixpoint str_leb (a b : str) : bool :=
  match a, b with
  | [], _ => true
  | _ :: _, [] => false
  | x :: a', y :: b' =>
    if x <? y then true
    else if x =? y then str_leb a' b'
    else false
  end.

Lemma str_leb_total : forall a b, str_leb a b = true \/ str_leb b a = true.
Proof.
  induction a as [|x a IH]; intros [|y b]; simpl; auto.
  destruct (N.ltb_spec x y) as [Hxy|Hxy].
  - now left.
  - destruct (N.eqb_spec x y) as [->|Hne].
    + rewrite N.ltb_irrefl, N.eqb_refl. apply IH.
    + right. assert (Hlt : y < x) by lia.
      apply N.ltb_lt in Hlt. now rewrite Hlt.
Qed.

Module StrOrder <: TotalLeBool.
Definition t := str.
Definition leb := str_leb.
Theorem leb_total : forall a1 a2, is_true (leb a1 a2) \/ is_true (leb a2 a1).
Proof. exact str_leb_total. Qed.
End StrOrder.

Module StrSort := Sort StrOrder.

(** [sorted(xs)] on a list of strings. Python's sort is stable and strings
    that compare equal are identical, so every correct sort returns the
    same list; merge sort stands for it here. *)
Definition sorted (xs : list str) : list str := StrSort.sort xs.

(** ** The monetary formatter *)

(** An exact decimal quantity: [coef / 10 ^ frac]. *)
Record decimal : Type := MkDecimal { coef : N; frac : nat }.

(** [d._rescale(-2, ROUND_HALF_EVEN)]: the number of hundredths. *)
Definition quantize2 (d : decimal) : N :=
  if Nat.leb (frac d) 2
  then coef d * 10 ^ N.of_nat (2 - frac d)
  else
    let p := 10 ^ N.of_nat (frac d - 2) in
    let q := coef d / p in
    let r := coef d mod p in
    if p <? 2 * r then q + 1
    else if (2 * r =? p) && N.odd q then q + 1
    else q.

(** Thousands separator of the [,] format option: a comma before every
    group of three digits counted from the right. *)
Fixpoint group3 (ds : str) : str :=
  match ds with
  | [] => []
  | c :: t =>
    if Nat.eqb (List.length t) 0 then [c]
    else if Nat.eqb (Nat.modulo (List.length t) 3) 0 then c :: 44 :: group3 t
    else c :: group3 t
  end.

Definition two_digits (n : N) : str :=
  if n <? 10 then 48 :: str_of_N n else str_of_N n.

(** [f'{d:,.2f}'] for a non-negative finite [d]. *)
Definition format_comma_2f (d : decimal) : str :=
  let cents := quantize2 d in
  group3 (str_of_N (cents / 100)) ++ [46] ++ two_digits (cents mod 100).

Section Pipeline.

(** The Unicode database is not part of the program: [nd_extra] gives the
    value of a decimal digit (category Nd) outside ASCII, both for [\d] and
    for the digits [Decimal] accepts. *)
Variable nd_extra : char -> option N.

(** [str(x)] of a list or a dict, which the program never inspects beyond
    passing it to [re.sub]. *)
Variable repr_container : json -> str.

Definition digit_value (c : char) : option N :=
  if (48 <=? c) && (c <=? 57) then Some (c - 48)
  else if c <? 128 then None
  else nd_extra c.

Definition is_digit (c : char) : bool :=
  match digit_value c with Some _ => true | None => false end.

(** [str(x)]. *)
Definition py_str (x : json) : str :=
  match x with
  | JNull => lit "None"
  | JBool true => lit "True"
  | JBool false => lit "False"
  | JInt z => str_of_Z z
  | JFloat r => r
  | JStr s => s
  | JArr _ | JObj _ => repr_container x
  end.

(** [re.sub(r'[^\d,]', '', s)]. *)
Definition strip_non_numeric (s : str) : str :=
  List.filter (fun c => is_digit c || (c =? 44)) s.

(** Longest prefix of digits, as digit values, and the rest. *)
Fixpoint take_digits (s : str) : list N * str :=
  match s with
  | [] => ([], [])
  | c :: t =>
    match digit_value c with
    | Some v => let (ds, r) := take_digits t in (v :: ds, r)
    | None => ([], s)
    end
  end.

Definition digits_to_N (ds : list N) : N :=
  List.fold_left (fun acc v => acc * 10 + v) ds 0.

(** [Decimal(s)] on the strings the formatter builds, which hold only
    digits and [.]: digits with an optional fractional part, or a [.]
    followed by digits; anything else is an [InvalidOperation]. *)
Definition Decimal_of_str (s : str) : res decimal :=
  let (ip, r) := take_digits s in
  match r with
  | [] =>
    match ip with
    | [] => Raise InvalidOperation
    | _ :: _ => Ok (MkDecimal (digits_to_N ip) 0)
    end
  | c :: r' =>
    if c =? 46 then
      let (fp, r'') := take_digits r' in
      match r'' with
      | [] =>
        match ip, fp with
        | [], [] => Raise InvalidOperation
        | _, _ => Ok (MkDecimal (digits_to_N (ip ++ fp)) (List.length fp))
        end
      | _ :: _ => Raise InvalidOperation
      end
    else Raise InvalidOperation
  end.

(** The body of the [try]. *)
Definition formatar_try (valor_str : json) : res json :=
  let valor_limpo :=
    replace (lit ",") (lit ".") (strip_non_numeric (py_str valor_str)) in
  valor_decimal <- Decimal_of_str valor_limpo ;;
  Ok (JStr (replace (lit "X") (lit ".")
             (replace (lit ".") (lit ",")
               (replace (lit ",") (lit "X")
                 (format_comma_2f valor_decimal))))).

(** [formatar_valor_brl]: [except (InvalidOperation, TypeError)] returns
    the argument; any other exception would propagate. *)
Definition formatar_valor_brl (valor_str : json) : res json :=
  match formatar_try valor_str with
  | Ok r => Ok r
  | Raise InvalidOperation => Ok valor_str
  | Raise TypeError => Ok valor_str
  | Raise e => Raise e
  end.


(** ** Reconciliation: the three tables *)

(** A row is the dict literal appended to a table; a table is the list of
    its rows. *)
Definition row := dict.
Definition table := list row.

Definition col_numero : str := lit "número do decreto".
Definition col_data : str := lit "data do decreto".
Definition col_valor : str := lit "valor do decreto".
Definition col_tipo : str := lit "Tipo de Crédito Adicional".
Definition col_fonte : str := lit "fonte de recurso do crédito adicional".
Definition col_valor_fonte : str :=
  lit "valor do crédito adicional para cada fonte de recurso".
Definition col_codigo : str := lit "código da fonte".

Definition k_fontes : str := lit "fontes".
Definition k_nome : str := lit "nome_da_fonte".
Definition k_valor_fonte : str := lit "valor_da_fonte".
Definition k_codigo : str := lit "codigo_fonte".
Definition k_numero : str := lit "numero_decreto".
Definition k_data : str := lit "data_decreto".
Definition k_valor_total : str := lit "valor_total".
Definition k_tipo : str := lit "tipo_credito".

Definition excesso : str := lit "Excesso de Arrecadação".
Definition nao_encontrado : str := lit "Não encontrado".

(** The iteration order of a [set] of strings is not fixed by the
    language; [set_order l] is the order in which [set(l)] yields its
    elements. *)
Variable set_order : list str -> list str.

(** [for x in v]: the elements of a list, the keys of a dict, the
    characters of a string; anything else is not iterable. *)
Definition iterate (v : json) : res (list json) :=
  match v with
  | JArr l => Ok l
  | JObj d => Ok (List.map (fun kv => JStr (fst kv)) d)
  | JStr s => Ok (List.map (fun c => JStr [c]) s)
  | _ => Raise TypeError
  end.

(** [len(v)]. *)
Definition py_len (v : json) : res nat :=
  match v with
  | JArr l => Ok (List.length l)
  | JObj d => Ok (List.length d)
  | JStr s => Ok (List.length s)
  | _ => Raise TypeError
  end.

(** [[f.get('nome_da_fonte') for f in fontes if f.get('nome_da_fonte')]]. *)
Fixpoint nomes_brutos (fs : list json) : res (list json) :=
  match fs with
  | [] => Ok []
  | f :: rest =>
    c <- get k_nome f ;;
    if truthy c then
      n <- get k_nome f ;;
      ns <- nomes_brutos rest ;;
      Ok (n :: ns)
    else nomes_brutos rest
  end.

(** The names as strings. A name that is not a string is truthy here, and
    ends in a [TypeError]: from [set] when it is not hashable, from
    [sorted] when it does not compare with the others, and otherwise
    from [join]; nothing evaluated in between can raise first. *)
Fixpoint as_strs (ns : list json) : res (list str) :=
  match ns with
  | [] => Ok []
  | JStr s :: rest => ss <- as_strs rest ;; Ok (s :: ss)
  | _ :: _ => Raise TypeError
  end.

(** [a or b]. *)
Definition py_or (a b : json) : json := if truthy a then a else b.

(** [v == s] for a string literal [s]. *)
Definition eq_str (v : json) (s : str) : bool :=
  match v with
  | JStr t => str_eqb t s
  | _ => false
  end.

(** The rows appended to [q2_linhas] by the loop over [fontes]. *)
Fixpoint q2_rows (dec : json) (fs : list json) : res table :=
  match fs with
  | [] => Ok []
  | fonte :: rest =>
    numero <- get k_numero dec ;;
    data <- get k_data dec ;;
    v <- get k_valor_fonte fonte ;;
    valor <- formatar_valor_brl v ;;
    nome <- get k_nome fonte ;;
    rows <- q2_rows dec rest ;;
    Ok ([(col_numero, numero); (col_data, data);
         (col_valor_fonte, valor); (col_fonte, nome)] :: rows)
  end.

(** The rows appended to [q3_linhas] by the loop over [fontes]. *)
Fixpoint q3_rows (dec : json) (fs : list json) : res table :=
  match fs with
  | [] => Ok []
  | fonte :: rest =>
    n <- get k_nome fonte ;;
    if eq_str n excesso then
      numero <- get k_numero dec ;;
      data <- get k_data dec ;;
      nome <- get k_nome fonte ;;
      codigo <- get k_codigo fonte ;;
      rows <- q3_rows dec rest ;;
      Ok ([(col_numero, numero); (col_data, data); (col_fonte, nome);
           (col_codigo, py_or codigo (JStr nao_encontrado))] :: rows)
    else q3_rows dec rest
  end.

(** One iteration of [for dec in lista_final_decretos]: the row appended
    to [q1_linhas] and the rows appended to [q2_linhas] and [q3_linhas]. *)
Definition reconcile_decreto (dec : json) : res (row * table * table) :=
  fontes <- get_default k_fontes (JArr []) dec ;;
  fs <- iterate fontes ;;
  brutos <- nomes_brutos fs ;;
  nomes <- as_strs brutos ;;
  let nomes_fontes := sorted (set_order nomes) in
  numero <- get k_numero dec ;;
  data <- get k_data dec ;;
  total <- get k_valor_total dec ;;
  valor <- formatar_valor_brl total ;;
  tipo <- get k_tipo dec ;;
  let r1 := [(col_numero, numero); (col_data, data); (col_valor, valor);
             (col_tipo, tipo);
             (col_fonte, JStr (join (lit ", ") nomes_fontes))] in
  n <- py_len fontes ;;
  r2 <- (if Nat.ltb 1 n then q2_rows dec fs else Ok []) ;;
  r3 <- q3_rows dec fs ;;
  Ok (r1, r2, r3).

(** The whole loop: the three tables, or the exception that ends the
    run. *)
Fixpoint reconcile (decs : list json) : res (table * table * table) :=
  match decs with
  | [] => Ok ([], [], [])
  | dec :: rest =>
    '(r1, r2, r3) <- reconcile_decreto dec ;;
    '(q1, q2, q3) <- reconcile rest ;;
    Ok (r1 :: q1, r2 ++ q2, r3 ++ q3)
  end.

End Pipeline.

(** ** Segmentation *)

(** A literal letter of a pattern compiled with [re.IGNORECASE]: the
    text character matches when its lower case is the pattern's. For the
    letters used here (ASCII, and the Latin-1 letters of "Orçamentário")
    these are the letter and its capital, 32 code points below. *)
Definition ci (lo : char) (c : char) : bool := (c =? lo) || (c =? lo - 32).

(** The letter [i] has two more: dotted capital I (U+0130), whose lower
    case is [i], and dotless i (U+0131), which [re] treats as its
    equivalent. *)
Definition ci_i (c : char) : bool := ci 105 c || (c =? 304) || (c =? 305).

Definition exactly (p : char) (c : char) : bool := c =? p.

(** A sequence of single-character tests matched at the start of [s];
    the text after the match. *)
Fixpoint eat (ps : list (char -> bool)) (s : str) : option str :=
  match ps, s with
  | [], _ => Some s
  | _ :: _, [] => None
  | p :: ps', c :: s' => if p c then eat ps' s' else None
  end.

(** [DECRETO] *)
Definition pat_decreto : list (char -> bool) :=
  [ci 100; ci 101; ci 99; ci 114; ci 101; ci 116; ci 111].

(** [ Orçamentário], with its leading space *)
Definition pat_orcamentario : list (char -> bool) :=
  [exactly 32; ci 111; ci 114; ci 231; ci 97; ci 109; ci 101; ci 110;
   ci 116; ci 225; ci 114; ci_i; ci 111].

(** [\s+N[º°]] at the start of [s]. The repetition is greedy, and a
    shorter run of white space would leave a white-space character where
    [N] is required. *)
Definition match_numero (s : str) : bool :=
  match s with
  | [] => false
  | c :: t =>
    isspace c &&
    match lstrip t with
    | n :: o :: _ => ci 110 n && ((o =? 186) || (o =? 176))
    | _ => false
    end
  end.

(** The lookahead [(?=DECRETO(?: Orçamentário)?\s+N[º°]\.?)]: the
    optional group is tried first and given up when the rest fails; the
    final optional dot never decides. *)
Definition cabecalho (s : str) : bool :=
  match eat pat_decreto s with
  | None => false
  | Some r =>
    match eat pat_orcamentario r with
    | Some r' => match_numero r' || match_numero r
    | None => match_numero r
    end
  end.

(** [re.split(padrao_split, texto, flags=re.IGNORECASE)]: every line
    feed that is followed by a header is a separator and is removed. *)
Fixpoint re_split (s : str) : list str :=
  match s with
  | [] => [[]]
  | c :: t =>
    if (c =? 10) && cabecalho t then [] :: re_split t
    else match re_split t with
         | p :: ps => (c :: p) :: ps
         | [] => [[c]]
         end
  end.

(** The split followed by
    [if not blocos_decretos[0].strip(): blocos_decretos.pop(0)]. *)
Definition segment (texto : str) : list str :=
  match re_split texto with
  | [] => []
  | b :: bs => if str_truthy (strip b) then b :: bs else bs
  end.

(** [enumerate(blocos)]. *)
Fixpoint enumerate_from {A : Type} (i : nat) (l : list A) : list (nat * A) :=
  match l with
  | [] => []
  | a :: t => (i, a) :: enumerate_from (S i) t
  end.

Definition enumerate {A : Type} (l : list A) : list (nat * A) :=
  enumerate_from O l.

(** ** The block filter *)

(** [re.search(p, s)] for a pattern tested at each position. *)
Fixpoint re_search (m : str -> bool) (s : str) : bool :=
  m s ||
  match s with
  | [] => false
  | _ :: t => re_search m t
  end.

(** [Art\.\s*n[º°o]] at the start of [s], with [re.IGNORECASE]; [n] is
    the digit. In the class, [o] also matches its capital. *)
Definition match_art (n : char) (s : str) : bool :=
  match eat [ci 97; ci 114; ci 116; exactly 46] s with
  | None => false
  | Some r =>
    match lstrip r with
    | d :: o :: _ =>
      (d =? n) && ((o =? 186) || (o =? 176) || ci 111 o)
    | _ => false
    end
  end.

(** The negation of the [continue] test of [analisador_ver3.py] and
    [analisador_ver4.py]. *)
Definition admissivel (bloco : str) : bool :=
  str_truthy (strip bloco) &&
  re_search (match_art 49) bloco &&
  re_search (match_art 50) bloco.

(** The same test in [analisador_ver2.py]:
    ["Art. 1º" in bloco and "Art. 2º" in bloco], case-sensitive. *)
Definition admissivel_ver2 (bloco : str) : bool :=
  str_truthy (strip bloco) &&
  contains (lit "Art. 1º") bloco &&
  contains (lit "Art. 2º") bloco.

(** ** The extraction loop *)

(** What the run prints, as far as the claims need it. *)
Inductive evento : Type :=
  | Analisando (i : nat)
  | ErroAPI
  | Extraido
  | SemChave (i : nat)
  | JSONInvalido (i : nat).

(** The state the loop threads: [lista_final_decretos], the fragments
    handed to the oracle, and the messages printed, each oldest first. *)
Record estado : Type := MkEstado {
  lista : list json;
  enviados : list str;
  log : list evento
}.

Definition estado_inicial : estado := MkEstado [] [] [].

Definition registrar (e : evento) (st : estado) : estado :=
  MkEstado (lista st) (enviados st) (log st ++ [e]).

Definition enviar (b : str) (st : estado) : estado :=
  MkEstado (lista st) (enviados st ++ [b]) (log st).

Definition extend (ds : list json) (st : estado) : estado :=
  MkEstado (lista st ++ ds) (enviados st) (log st).

(** [k in v] for a string [k]: a key of a dict, an element of a list, a
    substring of a string; nothing else supports [in]. *)
Definition py_in (k : str) (v : json) : res bool :=
  match v with
  | JObj d => Ok (match lookup k d with Some _ => true | None => false end)
  | JArr l => Ok (List.existsb (fun x => eq_str x k) l)
  | JStr s => Ok (contains k s)
  | _ => Raise TypeError
  end.

(** [v[k]] for a string [k]. *)
Definition getitem (k : str) (v : json) : res json :=
  match v with
  | JObj d => match lookup k d with Some x => Ok x | None => Raise KeyError end
  | _ => Raise TypeError
  end.

Section Driver.

(** The oracle: [model.generate_content(prompt).text] for the prompt
    built around a fragment, or [None] when the call raises. *)
Variable gemini : str -> option str.

(** [json.loads] on a string; [None] stands for [JSONDecodeError]. *)
Variable json_loads : str -> option json.

(** [enviar_prompt_para_bloco]: the reply stripped of its code fence, or
    [None] with a message when anything in the [try] raises. *)
Definition enviar_prompt_para_bloco (texto_bloco : str) (st : estado)
  : option str * estado :=
  match gemini texto_bloco with
  | Some text =>
    (Some (replace (lit "```") []
             (replace (lit "```json") [] (strip text))),
     enviar texto_bloco st)
  | None => (None, registrar ErroAPI (enviar texto_bloco st))
  end.

(** The [try] body of the loop, for the key [chave]; [nonempty] adds the
    [len(...) > 0] test of [analisador_ver4.py]. *)
Definition aceitar (chave : str) (nonempty : bool) (i : nat) (dados : json)
    (st : estado) : res estado :=
  presente <- py_in chave dados ;;
  if presente then
    v <- getitem chave dados ;;
    match v with
    | JArr ds =>
      if nonempty && negb (Nat.ltb 0 (List.length ds))
      then Ok (registrar (SemChave (S i)) st)
      else Ok (registrar Extraido (extend ds st))
    | _ => Ok (registrar (SemChave (S i)) st)
    end
  else Ok (registrar (SemChave (S i)) st).

(** One iteration of the loop of [analisador_ver3.py]. *)
Definition passo_ver3 (i : nat) (bloco : str) (st : estado) : res estado :=
  if negb (admissivel bloco) then Ok st
  else
    let st1 := registrar (Analisando (S i)) st in
    let (resposta, st2) := enviar_prompt_para_bloco bloco st1 in
    match resposta with
    | None => Ok st2
    | Some r =>
      if str_truthy r then
        match json_loads r with
        | Some dados => aceitar (lit "decretos") false i dados st2
        | None => Ok (registrar (JSONInvalido (S i)) st2)
        end
      else Ok st2
    end.

(** One iteration of the loop of [analisador_ver4.py]: no test of the
    reply before [json.loads], which raises [TypeError] on [None]. *)
Definition passo_ver4 (i : nat) (bloco : str) (st : estado) : res estado :=
  if negb (admissivel bloco) then Ok st
  else
    let st1 := registrar (Analisando (S i)) st in
    let (resposta, st2) :=
      enviar_prompt_para_bloco (lit "DECRETO " ++ bloco) st1 in
    match resposta with
    | None => Raise TypeError
    | Some r =>
      match json_loads r with
      | Some dados => aceitar (lit "quadro1") true i dados st2
      | None => Ok (registrar (JSONInvalido (S i)) st2)
      end
    end.

(** [for i, bloco in enumerate(blocos_decretos)]. *)
Fixpoint percorrer (passo : nat -> str -> estado -> res estado)
    (blocos : list (nat * str)) (st : estado) : res estado :=
  match blocos with
  | [] => Ok st
  | (i, bloco) :: rest =>
    st' <- passo i bloco st ;;
    percorrer passo rest st'
  end.

Definition extrair_ver3 (texto : str) : res estado :=
  percorrer passo_ver3 (enumerate (segment texto)) estado_inicial.

Definition extrair_ver4 (texto : str) : res estado :=
  percorrer passo_ver4 (enumerate (segment texto)) estado_inicial.

End Driver.

(** * Properties *)

(** ** The monetary formatter *)

Section FormatterFacts.

Variable nd_extra : char -> option N.
Variable repr_container : json -> str.

Lemma replace_single : forall a b s,
  replace [a] [b] s = List.map (fun c => if char_eqb a c then b else c) s.
Proof.
  intros a b s. unfold replace. induction s as [|c t IH]; [reflexivity|].
  simpl. rewrite IH. destruct (char_eqb a c); simpl.
  - destruct t; reflexivity.
  - reflexivity.
Qed.

(** The string handed to [Decimal] holds digits and points only. *)
Lemma valor_limpo_alphabet : forall v,
  Forall (fun c => is_digit nd_extra c = true \/ c = 46)
    (replace (lit ",") (lit ".") (strip_non_numeric nd_extra (py_str repr_container v))).
Proof.
  intros v. change (lit ",") with [44]. change (lit ".") with [46].
  rewrite replace_single. apply Forall_forall. intros c Hc.
  apply in_map_iff in Hc as [x [Hx Hin]].
  unfold strip_non_numeric in Hin. apply filter_In in Hin as [_ Hk].
  unfold char_eqb in Hx. destruct (N.eqb_spec 44 x) as [He|Hne].
  - right. now symmetry.
  - subst c. left. apply orb_prop in Hk as [Hd|He]; [exact Hd|].
    apply N.eqb_eq in He. congruence.
Qed.

Lemma Decimal_of_str_raises : forall s e,
  Decimal_of_str nd_extra s = Raise e -> e = InvalidOperation.
Proof.
  intros s e. unfold Decimal_of_str.
  destruct (take_digits nd_extra s) as [ip r].
  destruct r as [|c r'].
  - destruct ip; congruence.
  - destruct (c =? 46); [|congruence].
    destruct (take_digits nd_extra r') as [fp r''].
    destruct r''; [|congruence].
    destruct ip, fp; congruence.
Qed.

Lemma formatar_try_raises : forall v e,
  formatar_try nd_extra repr_container v = Raise e -> e = InvalidOperation.
Proof.
  intros v e. unfold formatar_try, bind.
  destruct (Decimal_of_str nd_extra _) as [d|e'] eqn:Hd; [discriminate|].
  intros H. injection H as <-. eapply Decimal_of_str_raises; eassumption.
Qed.

(** The formatter returns: a formatted string, or its argument. *)
Lemma formatar_valor_brl_total : forall v,
  (exists s, formatar_valor_brl nd_extra repr_container v = Ok (JStr s)) \/
  formatar_valor_brl nd_extra repr_container v = Ok v.
Proof.
  intros v. unfold formatar_valor_brl.
  destruct (formatar_try nd_extra repr_container v) as [r|e] eqn:Ht.
  - left. unfold formatar_try, bind in Ht.
    destruct (Decimal_of_str nd_extra _); [|discriminate].
    injection Ht as <-. eauto.
  - right. apply formatar_try_raises in Ht. now subst e.
Qed.

(** C9: [formatar_valor_brl] returns a value on every input and raises
    on none: the only exception the parse raises is [InvalidOperation],
    which the [except] clause turns into the unchanged argument; the
    result is a formatted string or the argument itself, and [None] comes
    back as [None]. *)
Theorem formatar_valor_brl_never_raises : forall v,
  (exists r, formatar_valor_brl nd_extra repr_container v = Ok r /\
             (r = v \/ exists s, r = JStr s)) /\
  ((exists r, formatar_try nd_extra repr_container v = Ok r) \/
   formatar_try nd_extra repr_container v = Raise InvalidOperation) /\
  formatar_valor_brl nd_extra repr_container JNull = Ok JNull.
Proof.
  intros v. split; [|split].
  - destruct (formatar_valor_brl_total v) as [[s Hs]|Hv].
    + exists (JStr s). split; [exact Hs|]. right. now exists s.
    + exists v. split; [exact Hv|]. now left.
  - destruct (formatar_try nd_extra repr_container v) as [r|e] eqn:Ht.
    + left. now exists r.
    + right. apply formatar_try_raises in Ht. now subst e.
  - reflexivity.
Qed.

(** C2: on the string ["2.041.680,00"] the formatter is the identity and
    ["garbage"] comes back unchanged, but the float [1884373.3] does not
    give ["1.884.373,30"]: [str] writes it with a decimal point, the
    point is stripped with every other non-digit, and the result is
    ["18.843.733,00"]. *)
Theorem formatar_valor_brl_examples :
  formatar_valor_brl nd_extra repr_container (JStr (lit "2.041.680,00"))
    = Ok (JStr (lit "2.041.680,00")) /\
  formatar_valor_brl nd_extra repr_container (JStr (lit "garbage"))
    = Ok (JStr (lit "garbage")) /\
  formatar_valor_brl nd_extra repr_container (JFloat (lit "1884373.3"))
    = Ok (JStr (lit "18.843.733,00")) /\
  formatar_valor_brl nd_extra repr_container (JFloat (lit "1884373.3"))
    <> Ok (JStr (lit "1.884.373,30")).
Proof.
  repeat split; try reflexivity.
  vm_compute. discriminate.
Qed.

End FormatterFacts.

(** ** Order facts behind [sorted] *)

Lemma str_leb_refl : forall a, str_leb a a = true.
Proof.
  induction a as [|x a IH]; simpl; [reflexivity|].
  now rewrite N.ltb_irrefl, N.eqb_refl.
Qed.

Lemma str_leb_antisym : forall a b,
  str_leb a b = true -> str_leb b a = true -> a = b.
Proof.
  induction a as [|x a IH]; intros [|y b]; simpl; try discriminate; auto.
  destruct (N.ltb_spec x y) as [Hxy|Hxy].
  - destruct (N.ltb_spec y x) as [Hyx|Hyx]; [lia|].
    destruct (N.eqb_spec y x); [lia|discriminate].
  - destruct (N.eqb_spec x y) as [->|Hne]; [|discriminate].
    rewrite N.ltb_irrefl, N.eqb_refl. intros H1 H2. f_equal. now apply IH.
Qed.

Lemma str_leb_trans : forall a b c,
  str_leb a b = true -> str_leb b c = true -> str_leb a c = true.
Proof.
  induction a as [|x a IH]; intros [|y b] [|z c]; simpl; try discriminate; auto.
  destruct (N.ltb_spec x y) as [Hxy|Hxy].
  - intros _. destruct (N.ltb_spec y z) as [Hyz|Hyz].
    + intros _. assert (H : x < z) by lia. apply N.ltb_lt in H. now rewrite H.
    + destruct (N.eqb_spec y z) as [->|Hne]; [|discriminate].
      intros _. apply N.ltb_lt in Hxy. now rewrite Hxy.
  - destruct (N.eqb_spec x y) as [->|Hne]; [|discriminate].
    intros Hab. destruct (N.ltb_spec y z) as [Hyz|Hyz]; [reflexivity|].
    destruct (N.eqb_spec y z) as [->|Hne]; [|discriminate].
    now apply IH.
Qed.

Definition le_str (a b : str) : Prop := str_leb a b = true.

(** Strictly below: what a sorted list without repetition satisfies. *)
Definition lt_str (a b : str) : Prop := str_leb a b = true /\ a <> b.

Lemma sorted_sorted : forall l, StronglySorted le_str (sorted l).
Proof.
  intros l. apply StrSort.StronglySorted_sort.
  intros a b c. apply str_leb_trans.
Qed.

Lemma sorted_perm : forall l, Permutation l (sorted l).
Proof. intros l. apply StrSort.Permuted_sort. Qed.

Lemma StronglySorted_perm_eq : forall l1 l2,
  StronglySorted le_str l1 -> StronglySorted le_str l2 ->
  Permutation l1 l2 -> l1 = l2.
Proof.
  induction l1 as [|a l1 IH]; intros l2 H1 H2 HP.
  - apply Permutation_nil in HP. now subst.
  - destruct l2 as [|b l2].
    + apply Permutation_sym, Permutation_nil in HP. discriminate.
    + inversion H1 as [|? ? Hs1 Ha]; subst.
      inversion H2 as [|? ? Hs2 Hb]; subst.
      assert (Hab : a = b).
      { assert (Hin1 : In a (b :: l2)).
        { eapply Permutation_in; [exact HP|now left]. }
        assert (Hin2 : In b (a :: l1)).
        { eapply Permutation_in; [apply Permutation_sym; exact HP|now left]. }
        destruct Hin1 as [->|Hin1]; [reflexivity|].
        destruct Hin2 as [->|Hin2]; [reflexivity|].
        rewrite Forall_forall in Ha, Hb.
        apply str_leb_antisym; [apply Ha|apply Hb]; assumption. }
      subst b. f_equal. apply IH; try assumption.
      eapply Permutation_cons_inv; exact HP.
Qed.

(** [sorted] only depends on the elements and their multiplicities. *)
Lemma sorted_perm_eq : forall l1 l2,
  Permutation l1 l2 -> sorted l1 = sorted l2.
Proof.
  intros l1 l2 HP. apply StronglySorted_perm_eq; try apply sorted_sorted.
  eapply Permutation_trans; [apply Permutation_sym, sorted_perm|].
  eapply Permutation_trans; [exact HP|apply sorted_perm].
Qed.

Lemma StronglySorted_NoDup_strict : forall l,
  StronglySorted le_str l -> NoDup l -> StronglySorted lt_str l.
Proof.
  induction l as [|a l IH]; intros Hs Hn; [constructor|].
  inversion Hs as [|? ? Hs' Ha]; subst. inversion Hn as [|? ? Hni Hn']; subst.
  constructor; [now apply IH|].
  rewrite Forall_forall in *. intros x Hx. split; [now apply Ha|].
  intros ->. contradiction.
Qed.

(** What a set built from a list yields when iterated: each element of
    the list once, in some order. *)
Definition set_spec (set_order : list str -> list str) : Prop :=
  forall l, NoDup (set_order l) /\ forall x, In x (set_order l) <-> In x l.

Lemma set_spec_perm : forall so1 so2 l,
  set_spec so1 -> set_spec so2 -> Permutation (so1 l) (so2 l).
Proof.
  intros so1 so2 l H1 H2. destruct (H1 l) as [N1 I1]. destruct (H2 l) as [N2 I2].
  apply NoDup_Permutation; try assumption.
  intros x. rewrite I1, I2. reflexivity.
Qed.

Lemma str_eq_dec : forall a b : str, {a = b} + {a <> b}.
Proof. apply list_eq_dec. apply N.eq_dec. Defined.

(** Two iteration orders a set can have: first occurrences kept, and the
    same reversed. *)
Definition set_first (l : list str) : list str := nodup str_eq_dec l.
Definition set_rev (l : list str) : list str := rev (nodup str_eq_dec l).

Lemma set_first_spec : set_spec set_first.
Proof.
  intros l. split; [apply NoDup_nodup|]. intros x. apply nodup_In.
Qed.

Lemma set_rev_spec : set_spec set_rev.
Proof.
  intros l. unfold set_rev. split.
  - apply NoDup_rev, NoDup_nodup.
  - intros x. rewrite <- in_rev. apply nodup_In.
Qed.

(** ** Reconciliation *)

Lemma str_eqb_eq : forall a b, str_eqb a b = true <-> a = b.
Proof.
  induction a as [|x a IH]; intros [|y b]; simpl; split; try discriminate; auto.
  - intros H. apply andb_prop in H as [Hx Hr]. apply N.eqb_eq in Hx.
    apply IH in Hr. now subst.
  - intros H. injection H as -> ->. unfold char_eqb.
    rewrite N.eqb_refl. now apply IH.
Qed.

(** The value under a key of a JSON object, [None] for a missing key. *)
Definition field (k : str) (x : json) : json :=
  match x with
  | JObj d => match lookup k d with Some v => v | None => JNull end
  | _ => JNull
  end.

Definition is_obj (x : json) : bool :=
  match x with JObj _ => true | _ => false end.

(** A funding source as the reconciliation can take it: an object whose
    name is a string, or is missing or false. *)
Definition fonte_valida (f : json) : bool :=
  is_obj f &&
  match field k_nome f with
  | JStr _ => true
  | v => negb (truthy v)
  end.

(** A funding source of the data model: an object with a non-empty
    string for a name. *)
Definition fonte_nomeada (f : json) : bool :=
  is_obj f &&
  match field k_nome f with
  | JStr (_ :: _) => true
  | _ => false
  end.

(** The [fontes] of a decree object: its list, or the empty list when
    the key is missing. *)
Definition fontes_de (dec : json) : option (list json) :=
  match dec with
  | JObj d =>
    match lookup k_fontes d with
    | None => Some []
    | Some (JArr fs) => Some fs
    | Some _ => None
    end
  | _ => None
  end.

(** The non-empty string names of a list of sources, in order. *)
Fixpoint nomes_de (fs : list json) : list str :=
  match fs with
  | [] => []
  | f :: rest =>
    match field k_nome f with
    | JStr (c :: s) => (c :: s) :: nomes_de rest
    | _ => nomes_de rest
    end
  end.

Definition is_excesso (f : json) : bool := eq_str (field k_nome f) excesso.

Lemma get_obj : forall k x, is_obj x = true -> get k x = Ok (field k x).
Proof. intros k [] H; try discriminate. reflexivity. Qed.

Lemma fonte_valida_obj : forall f, fonte_valida f = true -> is_obj f = true.
Proof. intros f H. apply andb_prop in H. tauto. Qed.

Lemma fonte_nomeada_valida : forall f,
  fonte_nomeada f = true -> fonte_valida f = true.
Proof.
  intros f H. unfold fonte_nomeada in H. unfold fonte_valida.
  apply andb_prop in H as [Ho Hn]. rewrite Ho. simpl.
  destruct (field k_nome f); try discriminate. reflexivity.
Qed.

Lemma nomes_brutos_as_strs : forall fs,
  forallb fonte_valida fs = true ->
  exists brutos, nomes_brutos fs = Ok brutos /\ as_strs brutos = Ok (nomes_de fs).
Proof.
  induction fs as [|f fs IH]; intros Hv.
  - exists []. split; reflexivity.
  - simpl in Hv. apply andb_prop in Hv as [Hf Hfs].
    destruct (IH Hfs) as [bs [Hb Hs]].
    pose proof (fonte_valida_obj f Hf) as Ho.
    simpl. rewrite (get_obj k_nome f Ho). simpl.
    unfold fonte_valida in Hf. rewrite Ho in Hf. simpl in Hf.
    destruct (field k_nome f) as [|b|z|r|s|l|d] eqn:En; simpl in *.
    + exists bs. auto.
    + destruct b; [discriminate|]. exists bs. auto.
    + apply negb_true_iff in Hf. rewrite Hf. simpl. exists bs. auto.
    + apply negb_true_iff in Hf. rewrite Hf. exists bs. auto.
    + destruct s as [|c s]; simpl.
      * exists bs. auto.
      * rewrite Hb. simpl. exists (JStr (c :: s) :: bs). split; [reflexivity|].
        simpl. rewrite Hs. reflexivity.
    + destruct l; [|discriminate]. exists bs. auto.
    + destruct d; [|discriminate]. exists bs. auto.
Qed.

Section ReconcileFacts.

Variable nd_extra : char -> option N.
Variable repr_container : json -> str.
Variable set_order : list str -> list str.

(** The formatter as a total function. *)
Definition fmt (v : json) : json :=
  match formatar_valor_brl nd_extra repr_container v with
  | Ok r => r
  | Raise _ => v
  end.

Lemma formatar_fmt : forall v,
  formatar_valor_brl nd_extra repr_container v = Ok (fmt v).
Proof.
  intros v. unfold fmt.
  destruct (formatar_valor_brl_total nd_extra repr_container v) as [[s Hs]|Hv].
  - now rewrite Hs.
  - now rewrite Hv.
Qed.

(** The dict literals of the three tables. *)
Definition row1 (dec : json) (nomes : list str) : row :=
  [(col_numero, field k_numero dec); (col_data, field k_data dec);
   (col_valor, fmt (field k_valor_total dec)); (col_tipo, field k_tipo dec);
   (col_fonte, JStr (join (lit ", ") (sorted (set_order nomes))))].

Definition row2 (dec fonte : json) : row :=
  [(col_numero, field k_numero dec); (col_data, field k_data dec);
   (col_valor_fonte, fmt (field k_valor_fonte fonte));
   (col_fonte, field k_nome fonte)].

Definition row3 (dec fonte : json) : row :=
  [(col_numero, field k_numero dec); (col_data, field k_data dec);
   (col_fonte, field k_nome fonte);
   (col_codigo, py_or (field k_codigo fonte) (JStr nao_encontrado))].

Lemma q2_rows_map : forall dec fs,
  is_obj dec = true -> forallb is_obj fs = true ->
  q2_rows nd_extra repr_container dec fs = Ok (List.map (row2 dec) fs).
Proof.
  intros dec fs Hd. induction fs as [|f fs IH]; intros Hfs; [reflexivity|].
  simpl in Hfs. apply andb_prop in Hfs as [Hf Hfs].
  simpl. rewrite !(get_obj _ dec Hd), !(get_obj _ f Hf). simpl.
  rewrite formatar_fmt. simpl. rewrite (IH Hfs). reflexivity.
Qed.

Lemma q3_rows_map : forall dec fs,
  is_obj dec = true -> forallb is_obj fs = true ->
  q3_rows dec fs = Ok (List.map (row3 dec) (List.filter is_excesso fs)).
Proof.
  intros dec fs Hd. induction fs as [|f fs IH]; intros Hfs; [reflexivity|].
  simpl in Hfs. apply andb_prop in Hfs as [Hf Hfs].
  simpl. rewrite !(get_obj _ f Hf). simpl. unfold is_excesso.
  destruct (eq_str (field k_nome f) excesso).
  - rewrite !(get_obj _ dec Hd). simpl. rewrite (IH Hfs). reflexivity.
  - apply (IH Hfs).
Qed.

Lemma forallb_valida_obj : forall fs,
  forallb fonte_valida fs = true -> forallb is_obj fs = true.
Proof.
  intros fs H. rewrite forallb_forall in *. intros f Hf.
  apply fonte_valida_obj. now apply H.
Qed.

(** The iteration for one decree in closed form. *)
Lemma reconcile_decreto_valid : forall dec fs,
  fontes_de dec = Some fs -> forallb fonte_valida fs = true ->
  reconcile_decreto nd_extra repr_container set_order dec =
    Ok (row1 dec (nomes_de fs),
        (if Nat.ltb 1 (List.length fs) then List.map (row2 dec) fs else []),
        List.map (row3 dec) (List.filter is_excesso fs)).
Proof.
  intros dec fs Hf Hv.
  destruct dec as [| | | | | |d]; try discriminate.
  assert (Hd : is_obj (JObj d) = true) by reflexivity.
  pose proof (forallb_valida_obj fs Hv) as Ho.
  destruct (nomes_brutos_as_strs fs Hv) as [bs [Hb Hs]].
  unfold reconcile_decreto, get_default. simpl in Hf.
  assert (Hfontes : (match lookup k_fontes d with Some v => v | None => JArr [] end)
                    = JArr fs).
  { destruct (lookup k_fontes d) as [v|]; [|now injection Hf as <-].
    destruct v; try discriminate. now injection Hf as ->. }
  rewrite Hfontes. simpl. rewrite Hb. simpl. rewrite Hs. simpl.
  rewrite formatar_fmt. simpl.
  rewrite (q3_rows_map (JObj d) fs Hd Ho).
  destruct (Nat.ltb 1 (List.length fs)).
  - rewrite (q2_rows_map (JObj d) fs Hd Ho). reflexivity.
  - reflexivity.
Qed.

(** A decree the reconciliation can take: an object whose [fontes], when
    present, is a list of valid sources. *)
Definition decreto_valido (dec : json) : bool :=
  match fontes_de dec with
  | Some fs => forallb fonte_valida fs
  | None => false
  end.

Definition fontes_list (dec : json) : list json :=
  match fontes_de dec with
  | Some fs => fs
  | None => []
  end.

Definition rows2 (dec : json) : table :=
  if Nat.ltb 1 (List.length (fontes_list dec))
  then List.map (row2 dec) (fontes_list dec) else [].

Definition rows3 (dec : json) : table :=
  List.map (row3 dec) (List.filter is_excesso (fontes_list dec)).

(** The three tables in closed form. *)
Lemma reconcile_valid : forall decs,
  forallb decreto_valido decs = true ->
  reconcile nd_extra repr_container set_order decs =
    Ok (List.map (fun dec => row1 dec (nomes_de (fontes_list dec))) decs,
        List.flat_map rows2 decs,
        List.flat_map rows3 decs).
Proof.
  induction decs as [|dec decs IH]; intros Hv; [reflexivity|].
  simpl in Hv. apply andb_prop in Hv as [Hd Hr].
  unfold decreto_valido in Hd.
  destruct (fontes_de dec) as [fs|] eqn:Hf; [|discriminate].
  simpl. rewrite (reconcile_decreto_valid dec fs Hf Hd). simpl.
  rewrite (IH Hr). simpl. unfold rows2, rows3, fontes_list. rewrite Hf.
  reflexivity.
Qed.

Lemma lookup_codigo_row3 : forall dec f,
  lookup col_codigo (row3 dec f)
  = Some (py_or (field k_codigo f) (JStr nao_encontrado)).
Proof. intros. reflexivity. Qed.

Lemma lookup_fonte_row1 : forall dec nomes,
  lookup col_fonte (row1 dec nomes)
  = Some (JStr (join (lit ", ") (sorted (set_order nomes)))).
Proof. intros. reflexivity. Qed.

Lemma py_or_not_null : forall c s, py_or c (JStr s) <> JNull.
Proof.
  intros c s. unfold py_or. destruct (truthy c) eqn:Ht; [|discriminate].
  intros ->. discriminate.
Qed.

Lemma is_excesso_iff : forall f,
  is_excesso f = true <-> field k_nome f = JStr excesso.
Proof.
  intros f. unfold is_excesso, eq_str. destruct (field k_nome f); split;
    try discriminate.
  - intros H. apply str_eqb_eq in H. now subst.
  - intros H. injection H as ->. now apply str_eqb_eq.
Qed.

Lemma nomes_de_In : forall fs s,
  In s (nomes_de fs) <->
  s <> [] /\ exists f, In f fs /\ field k_nome f = JStr s.
Proof.
  induction fs as [|f fs IH]; intros s; simpl.
  - split; [tauto|]. intros [_ [f [[] _]]].
  - destruct (field k_nome f) as [| | | |t| |] eqn:En;
      try (rewrite IH; split;
           [intros [Hs [g [Hg Hn]]]; split; [exact Hs|exists g; auto]
           |intros [Hs [g [[<-|Hg] Hn]]];
            [congruence|split; [exact Hs|exists g; auto]]]).
    destruct t as [|c t].
    + rewrite IH. split.
      * intros [Hs [g [Hg Hn]]]. split; [exact Hs|exists g; auto].
      * intros [Hs [g [[<-|Hg] Hn]]].
        -- rewrite En in Hn. injection Hn as <-. contradiction.
        -- split; [exact Hs|exists g; auto].
    + simpl. rewrite IH. split.
      * intros [<-|[Hs [g [Hg Hn]]]].
        -- split; [discriminate|exists f; auto].
        -- split; [exact Hs|exists g; auto].
      * intros [Hs [g [[<-|Hg] Hn]]].
        -- left. rewrite En in Hn. now injection Hn.
        -- right. split; [exact Hs|exists g; auto].
Qed.

(** C1: a valid decree gives Table 2 no row when it has exactly one
    funding source and [len(fontes)] rows, one per source and in their
    order, when it has two or more; it gives rows if and only if it has
    more than one source. *)
Theorem table2_rows_iff_multiple_sources : forall dec fs,
  fontes_de dec = Some fs -> forallb fonte_valida fs = true ->
  exists r1 r2 r3,
    reconcile_decreto nd_extra repr_container set_order dec = Ok (r1, r2, r3) /\
    (List.length fs = 1%nat -> r2 = []) /\
    ((2 <= List.length fs)%nat ->
       r2 = List.map (row2 dec) fs /\ List.length r2 = List.length fs) /\
    (r2 <> [] <-> (1 < List.length fs)%nat).
Proof.
  intros dec fs Hf Hv.
  eexists _, _, _. split; [apply (reconcile_decreto_valid dec fs Hf Hv)|].
  destruct (Nat.ltb_spec 1 (List.length fs)) as [Hlt|Hge].
  - split; [intros H; lia|]. split.
    + intros _. split; [reflexivity|apply length_map].
    + split; [intros _; exact Hlt|]. intros _.
      destruct fs; simpl in *; [lia|discriminate].
  - split; [reflexivity|]. split; [intros H; lia|].
    split; [intros H; now elim H|intros H; lia].
Qed.

(** C5: for valid decrees, Table 3 is made of one row for each funding
    source named "Excesso de Arrecadação", decree after decree, whatever
    the number of sources of the decree; its code column is never null:
    it holds the source's code when that is a true value and the
    placeholder "Não encontrado" otherwise. *)
Theorem table3_rows_and_codes : forall decs,
  forallb decreto_valido decs = true ->
  exists q1 q2 q3,
    reconcile nd_extra repr_container set_order decs = Ok (q1, q2, q3) /\
    q3 = List.flat_map
           (fun dec => List.map (row3 dec)
                         (List.filter is_excesso (fontes_list dec))) decs /\
    (forall f, is_excesso f = true <-> field k_nome f = JStr excesso) /\
    Forall (fun r => exists v, lookup col_codigo r = Some v /\ v <> JNull) q3 /\
    (forall dec f,
       lookup col_codigo (row3 dec f) =
         Some (if truthy (field k_codigo f) then field k_codigo f
               else JStr nao_encontrado)).
Proof.
  intros decs Hv. eexists _, _, _.
  split; [apply (reconcile_valid decs Hv)|].
  split; [reflexivity|]. split; [exact is_excesso_iff|]. split.
  - apply Forall_forall. intros r Hr.
    apply in_flat_map in Hr as [dec [_ Hr]]. unfold rows3 in Hr.
    apply in_map_iff in Hr as [f [<- _]].
    eexists. split; [apply lookup_codigo_row3|apply py_or_not_null].
  - intros dec f. apply lookup_codigo_row3.
Qed.

Lemma nomes_de_nomeada : forall fs s,
  forallb fonte_nomeada fs = true ->
  (In s (nomes_de fs) <-> exists f, In f fs /\ field k_nome f = JStr s).
Proof.
  intros fs s Hn. rewrite nomes_de_In. split; [tauto|].
  intros [f [Hf Hs]]. split; [|eauto].
  rewrite forallb_forall in Hn. specialize (Hn f Hf).
  unfold fonte_nomeada in Hn. apply andb_prop in Hn as [_ Hn].
  rewrite Hs in Hn. destruct s; [discriminate|discriminate].
Qed.

Lemma forallb_nomeada_valida : forall fs,
  forallb fonte_nomeada fs = true -> forallb fonte_valida fs = true.
Proof.
  intros fs H. rewrite forallb_forall in *. intros f Hf.
  apply fonte_nomeada_valida. now apply H.
Qed.

(** C6: a decree of the data model gives Table 1 exactly one row; its
    'fonte de recurso' column is the ", "-join of a list that is strictly
    increasing (so sorted and without repetition) and whose elements are
    exactly the names of the decree's funding sources. Over a run, Table 1
    has one row per decree. *)
Theorem table1_row_sorted_distinct_sources :
  set_spec set_order ->
  forall dec fs,
  fontes_de dec = Some fs -> forallb fonte_nomeada fs = true ->
  exists (r1 : row) r2 r3 nomes,
    reconcile_decreto nd_extra repr_container set_order dec = Ok (r1, r2, r3) /\
    lookup col_fonte r1 = Some (JStr (join (lit ", ") nomes)) /\
    StronglySorted lt_str nomes /\ NoDup nomes /\
    (forall s, In s nomes <-> exists f, In f fs /\ field k_nome f = JStr s) /\
    (forall rest q1 q2 q3,
       reconcile nd_extra repr_container set_order rest = Ok (q1, q2, q3) ->
       exists q2' q3',
         reconcile nd_extra repr_container set_order (dec :: rest)
         = Ok (r1 :: q1, q2', q3')).
Proof.
  intros Hset dec fs Hf Hn.
  pose proof (forallb_nomeada_valida fs Hn) as Hv.
  pose proof (reconcile_decreto_valid dec fs Hf Hv) as Hrec.
  destruct (Hset (nomes_de fs)) as [Hnd Hin].
  pose proof (sorted_perm (set_order (nomes_de fs))) as HP.
  assert (Hnd' : NoDup (sorted (set_order (nomes_de fs)))).
  { eapply Permutation_NoDup; eassumption. }
  eexists _, _, _, (sorted (set_order (nomes_de fs))).
  split; [exact Hrec|]. split; [apply lookup_fonte_row1|].
  split; [apply StronglySorted_NoDup_strict; [apply sorted_sorted|exact Hnd']|].
  split; [exact Hnd'|]. split.
  - intros s. rewrite <- (nomes_de_nomeada fs s Hn), <- Hin. split.
    + apply Permutation_in. now apply Permutation_sym.
    + now apply Permutation_in.
  - intros rest q1 q2 q3 Hrest. simpl. rewrite Hrec. simpl.
    rewrite Hrest. simpl. eauto.
Qed.

(** C10: a decree object whose [fontes] key is missing, or is the empty
    list, is reconciled without error: one Table 1 row whose 'fonte de
    recurso' column is the empty string, and no row for Tables 2 and 3. *)
Theorem decree_without_sources :
  set_spec set_order ->
  forall d,
  lookup k_fontes d = None \/ lookup k_fontes d = Some (JArr []) ->
  exists r1 : row,
    reconcile_decreto nd_extra repr_container set_order (JObj d)
      = Ok (r1, [], []) /\
    lookup col_fonte r1 = Some (JStr []) /\
    reconcile nd_extra repr_container set_order [JObj d] = Ok ([r1], [], []).
Proof.
  intros Hset d Hd.
  assert (Hf : fontes_de (JObj d) = Some []).
  { simpl. destruct Hd as [-> | ->]; reflexivity. }
  pose proof (reconcile_decreto_valid (JObj d) [] Hf eq_refl) as Hrec.
  simpl in Hrec.
  assert (Hnil : set_order [] = []).
  { destruct (Hset []) as [_ Hin]. destruct (set_order []) as [|x l]; [reflexivity|].
    exfalso. apply (Hin x). now left. }
  eexists. split; [exact Hrec|]. split.
  - rewrite lookup_fonte_row1. simpl. rewrite Hnil. reflexivity.
  - simpl. rewrite Hrec. reflexivity.
Qed.

End ReconcileFacts.

(** Independence from the iteration order of the set. *)
Lemma reconcile_decreto_set_order : forall nd rc so1 so2 dec,
  set_spec so1 -> set_spec so2 ->
  reconcile_decreto nd rc so1 dec = reconcile_decreto nd rc so2 dec.
Proof.
  intros nd rc so1 so2 dec H1 H2. unfold reconcile_decreto.
  destruct (get_default k_fontes (JArr []) dec) as [fontes|e]; [|reflexivity].
  simpl. destruct (iterate fontes) as [fs|e]; [|reflexivity].
  simpl. destruct (nomes_brutos fs) as [bs|e]; [|reflexivity].
  simpl. destruct (as_strs bs) as [nomes|e]; [|reflexivity].
  simpl. rewrite (sorted_perm_eq (so1 nomes) (so2 nomes)); [reflexivity|].
  now apply set_spec_perm.
Qed.

(** C8: the three tables are a function of the sequence of extracted
    records alone. The one source of variation between two runs, the
    order in which a set of names is iterated, is erased by [sorted]:
    whatever the two orders, the runs build the same tables, or stop on
    the same exception. *)
Theorem reconcile_deterministic : forall nd rc so1 so2 decs,
  set_spec so1 -> set_spec so2 ->
  reconcile nd rc so1 decs = reconcile nd rc so2 decs.
Proof.
  intros nd rc so1 so2 decs H1 H2.
  induction decs as [|dec decs IH]; [reflexivity|].
  simpl. rewrite (reconcile_decreto_set_order nd rc so1 so2 dec H1 H2).
  rewrite IH. reflexivity.
Qed.

(** ** Segmentation *)

Lemma re_split_nonempty : forall s, re_split s <> [].
Proof.
  destruct s as [|c t]; simpl; [discriminate|].
  destruct ((c =? 10) && cabecalho t); [discriminate|].
  destruct (re_split t); discriminate.
Qed.

Lemma join_cons_char : forall sep c p ps,
  join sep ((c :: p) :: ps) = c :: join sep (p :: ps).
Proof. intros sep c p [|q ps]; reflexivity. Qed.

(** Joining the pieces with the removed line feed gives the text back. *)
Lemma join_re_split : forall s, join [10] (re_split s) = s.
Proof.
  induction s as [|c t IH]; [reflexivity|].
  simpl re_split.
  destruct ((c =? 10) && cabecalho t) eqn:Hsep.
  - apply andb_prop in Hsep as [Hc _]. apply N.eqb_eq in Hc. subst c.
    pose proof (re_split_nonempty t) as Hne.
    destruct (re_split t) as [|p ps] eqn:Hr; [contradiction|].
    change (join [10] ([] :: p :: ps)) with (10 :: join [10] (p :: ps)).
    f_equal. exact IH.
  - pose proof (re_split_nonempty t) as Hne.
    destruct (re_split t) as [|p ps] eqn:Hr; [contradiction|].
    cbv iota. rewrite join_cons_char. f_equal. exact IH.
Qed.

Lemma enumerate_from_snd : forall (A : Type) (l : list A) i,
  List.map snd (enumerate_from i l) = l.
Proof.
  induction l as [|a l IH]; intros i; simpl; [reflexivity|]. now rewrite IH.
Qed.

Lemma enumerate_from_fst : forall (A : Type) (l : list A) i,
  List.map fst (enumerate_from i l) = seq i (List.length l).
Proof.
  induction l as [|a l IH]; intros i; simpl; [reflexivity|]. now rewrite IH.
Qed.

Lemma seq_strictly_increasing : forall n i, StronglySorted lt (seq i n).
Proof.
  induction n as [|n IH]; intros i; simpl; constructor; [apply IH|].
  apply Forall_forall. intros x Hx. apply in_seq in Hx. lia.
Qed.

Lemma lstrip_split : forall s,
  exists ws, s = ws ++ lstrip s /\ Forall (fun c => isspace c = true) ws.
Proof.
  induction s as [|c t [ws [Hs Hw]]]; simpl.
  - now exists [].
  - destruct (isspace c) eqn:Hc.
    + exists (c :: ws). split; [simpl; now f_equal|now constructor].
    + now exists [].
Qed.

Lemma lstrip_nil : forall s,
  lstrip s = [] -> Forall (fun c => isspace c = true) s.
Proof.
  induction s as [|c t IH]; simpl; intros H; [constructor|].
  destruct (isspace c) eqn:Hc; [|discriminate].
  constructor; [exact Hc|now apply IH].
Qed.

Lemma rev_nil : forall (A : Type) (l : list A), rev l = [] -> l = [].
Proof.
  intros A l H. apply (f_equal (@rev A)) in H.
  now rewrite rev_involutive in H.
Qed.

(** A string that [strip] empties is made of white space. *)
Lemma strip_nil_blank : forall s,
  strip s = [] -> Forall (fun c => isspace c = true) s.
Proof.
  intros s H. unfold strip, rstrip in H.
  apply rev_nil, lstrip_nil in H.
  destruct (lstrip_split s) as [ws [Hs Hw]]. rewrite Hs.
  apply Forall_app. split; [exact Hw|].
  apply Forall_forall. intros c Hc. rewrite Forall_forall in H.
  apply H. now apply -> in_rev.
Qed.

(** The fragments of [segment], joined by the removed line feed, are the
    corpus without a blank head. *)
Lemma segment_join : forall texto,
  exists lead,
    Forall (fun c => isspace c = true) lead /\
    texto = lead ++ join [10] (segment texto).
Proof.
  intros texto. pose proof (join_re_split texto) as Hj.
  pose proof (re_split_nonempty texto) as Hne. unfold segment.
  destruct (re_split texto) as [|b bs]; [contradiction|].
  destruct (strip b) as [|c r] eqn:Hs; simpl str_truthy; cbv iota.
  - apply strip_nil_blank in Hs. destruct bs as [|q bs].
    + exists b. split; [exact Hs|]. simpl in Hj. simpl.
      now rewrite app_nil_r.
    + exists (b ++ [10]). split.
      * apply Forall_app. split; [exact Hs|]. now constructor.
      * rewrite <- Hj. change (join [10] (b :: q :: bs))
          with (b ++ [10] ++ join [10] (q :: bs)).
        now rewrite app_assoc.
  - exists []. split; [constructor|]. now rewrite <- Hj.
Qed.

(** C7: the pieces of the split, joined again by the line feed the split
    removed, are the corpus; [segment] returns these pieces, or these
    pieces without the first when that one is blank, and in particular
    drops a leading empty piece, so that its fragments joined again are
    the corpus less a blank head; [enumerate] numbers the fragments
    0, 1, 2, ... in the order of the split, which is the order of the
    text. *)
Theorem segment_reconstructs_in_order : forall texto,
  join [10] (re_split texto) = texto /\
  (exists lead,
     Forall (fun c => isspace c = true) lead /\
     texto = lead ++ join [10] (segment texto)) /\
  (segment texto = re_split texto \/
   exists b, re_split texto = b :: segment texto /\ strip b = []) /\
  match re_split texto with
  | [] :: bs => segment texto = bs
  | _ => True
  end /\
  List.map snd (enumerate (segment texto)) = segment texto /\
  List.map fst (enumerate (segment texto))
    = seq 0 (List.length (segment texto)) /\
  StronglySorted lt (List.map fst (enumerate (segment texto))).
Proof.
  intros texto. split; [apply join_re_split|]. split; [apply segment_join|].
  split; [|split; [|split; [|split]]].
  - unfold segment. destruct (re_split texto) as [|b bs]; [now left|].
    destruct (strip b) as [|c r] eqn:Hs; simpl.
    + right. exists b. split; [reflexivity|exact Hs].
    + now left.
  - unfold segment. destruct (re_split texto) as [|[|c b] bs]; try exact I.
    reflexivity.
  - apply enumerate_from_snd.
  - apply enumerate_from_fst.
  - unfold enumerate. rewrite enumerate_from_fst. apply seq_strictly_increasing.
Qed.

(** ** The block filter *)

(** The text holds, somewhere, "Art." in any case, then white space or
    nothing, then the digit [n] and one of º, ° and the letter o. *)
Definition marcador (n : char) (b : str) : Prop :=
  exists pre a r t ws o post,
    b = pre ++ [a; r; t; 46] ++ ws ++ [n; o] ++ post /\
    (a = 97 \/ a = 65) /\ (r = 114 \/ r = 82) /\ (t = 116 \/ t = 84) /\
    Forall (fun c => isspace c = true) ws /\
    (o = 186 \/ o = 176 \/ o = 111 \/ o = 79).

Lemma re_search_iff : forall m s,
  re_search m s = true <-> exists pre post, s = pre ++ post /\ m post = true.
Proof.
  intros m. induction s as [|c t IH]; simpl.
  - rewrite orb_false_r. split.
    + intros H. now exists [], [].
    + intros [pre [post [Hs Hm]]]. symmetry in Hs.
      apply app_eq_nil in Hs as [_ ->]. exact Hm.
  - rewrite orb_true_iff, IH. split.
    + intros [H|[pre [post [-> Hm]]]].
      * now exists [], (c :: t).
      * now exists (c :: pre), post.
    + intros [pre [post [Hs Hm]]]. destruct pre as [|x pre].
      * left. simpl in Hs. now subst.
      * right. injection Hs as -> ->. now exists pre, post.
Qed.

Lemma lstrip_app : forall ws d r,
  Forall (fun c => isspace c = true) ws -> isspace d = false ->
  lstrip (ws ++ d :: r) = d :: r.
Proof.
  induction ws as [|w ws IH]; intros d r Hw Hd; simpl.
  - now rewrite Hd.
  - inversion Hw as [|? ? Hw1 Hw2]; subst. rewrite Hw1. now apply IH.
Qed.

Lemma ci_iff : forall lo c, ci lo c = true <-> c = lo \/ c = lo - 32.
Proof.
  intros lo c. unfold ci. rewrite orb_true_iff, !N.eqb_eq. reflexivity.
Qed.

Lemma match_art_iff : forall n s,
  isspace n = false ->
  (match_art n s = true <->
   exists a r t ws o post,
     s = [a; r; t; 46] ++ ws ++ [n; o] ++ post /\
     (a = 97 \/ a = 65) /\ (r = 114 \/ r = 82) /\ (t = 116 \/ t = 84) /\
     Forall (fun c => isspace c = true) ws /\
     (o = 186 \/ o = 176 \/ o = 111 \/ o = 79)).
Proof.
  intros n s Hn. unfold match_art. split.
  - destruct s as [|a [|r [|t [|dot s']]]]; simpl; try discriminate;
      try (destruct (ci 97 a); [|discriminate];
           try (destruct (ci 114 r); [|discriminate]);
           try (destruct (ci 116 t); [|discriminate]); discriminate).
    destruct (ci 97 a) eqn:Ha; [|discriminate].
    destruct (ci 114 r) eqn:Hr; [|discriminate].
    destruct (ci 116 t) eqn:Ht; [|discriminate].
    unfold exactly. destruct (N.eqb_spec dot 46) as [->|]; [|discriminate].
    destruct (lstrip_split s') as [ws [Hs Hw]].
    destruct (lstrip s') as [|d [|o post]] eqn:Hl; try discriminate.
    intros H. apply andb_prop in H as [Hd Ho]. apply N.eqb_eq in Hd. subst d.
    exists a, r, t, ws, o, post. rewrite Hs at 1.
    apply ci_iff in Ha, Hr, Ht.
    repeat split; try assumption; try reflexivity.
    rewrite !orb_true_iff, !N.eqb_eq, ci_iff in Ho.
    simpl in Ho. tauto.
  - intros [a [r [t [ws [o [post [-> [Ha [Hr [Ht [Hw Ho]]]]]]]]]]].
    simpl. 
    assert (Ea : ci 97 a = true) by (apply ci_iff; exact Ha).
    assert (Er : ci 114 r = true) by (apply ci_iff; exact Hr).
    assert (Et : ci 116 t = true) by (apply ci_iff; exact Ht).
    rewrite Ea, Er, Et. unfold exactly. simpl.
    rewrite (lstrip_app ws n (o :: post) Hw Hn).
    rewrite N.eqb_refl. simpl.
    rewrite !orb_true_iff, !N.eqb_eq, ci_iff. simpl. tauto.
Qed.

Lemma marcador_iff : forall n b,
  isspace n = false ->
  (re_search (match_art n) b = true <-> marcador n b).
Proof.
  intros n b Hn. rewrite re_search_iff. unfold marcador. split.
  - intros [pre [post [-> Hm]]]. apply (match_art_iff n post Hn) in Hm.
    destruct Hm as [a [r [t [ws [o [post' [-> H]]]]]]].
    exists pre, a, r, t, ws, o, post'. split; [reflexivity|exact H].
  - intros [pre [a [r [t [ws [o [post [-> H]]]]]]]].
    exists pre, ([a; r; t; 46] ++ ws ++ [n; o] ++ post). split; [reflexivity|].
    apply (match_art_iff n _ Hn). exists a, r, t, ws, o, post.
    split; [reflexivity|exact H].
Qed.

Lemma lstrip_keeps : forall c s,
  In c s -> isspace c = false -> In c (lstrip s).
Proof.
  intros c. induction s as [|x s IH]; intros Hin Hc; [contradiction|].
  simpl. destruct (isspace x) eqn:Hx; [|exact Hin].
  destruct Hin as [->|Hin]; [congruence|now apply IH].
Qed.

Lemma strip_keeps : forall c s,
  In c s -> isspace c = false -> In c (strip s).
Proof.
  intros c s Hin Hc. unfold strip, rstrip.
  apply -> in_rev. apply lstrip_keeps; [|exact Hc].
  apply -> in_rev. now apply lstrip_keeps.
Qed.

Lemma marcador_not_blank : forall n b,
  marcador n b -> str_truthy (strip b) = true.
Proof.
  intros n b [pre [a [r [t [ws [o [post [-> _]]]]]]]].
  assert (Hin : In 46 (strip (pre ++ [a; r; t; 46] ++ ws ++ [n; o] ++ post))).
  { apply strip_keeps; [|reflexivity].
    apply in_or_app. right. simpl. auto. }
  destruct (strip _); [contradiction|reflexivity].
Qed.

Lemma admissivel_iff : forall b,
  admissivel b = true <-> marcador 49 b /\ marcador 50 b.
Proof.
  intros b. unfold admissivel.
  rewrite !andb_true_iff, (marcador_iff 49 b eq_refl), (marcador_iff 50 b eq_refl).
  split; [tauto|]. intros [H1 H2]. repeat split; try assumption.
  now apply (marcador_not_blank 49).
Qed.

(** X11: in [analisador_ver3.py] and [analisador_ver4.py] a fragment passes
    the filter if and only if it holds both an Article 1 marker and an
    Article 2 marker; a fragment that lacks one leaves the state of the
    loop as it was, whatever the oracle: nothing is sent and nothing is
    printed (so every fragment has both markers, or is skipped). *)
Lemma admissible_iff_both_markers : forall b,
  (admissivel b = true <-> marcador 49 b /\ marcador 50 b) /\
  ((marcador 49 b /\ marcador 50 b) \/
   forall gemini json_loads i st,
     passo_ver3 gemini json_loads i b st = Ok st /\
     passo_ver4 gemini json_loads i b st = Ok st).
Proof.
  intros b. split; [apply admissivel_iff|].
  destruct (admissivel b) eqn:Ha.
  - left. now apply admissivel_iff.
  - right. intros gemini json_loads i st.
    unfold passo_ver3, passo_ver4. rewrite Ha. split; reflexivity.
Qed.

(** ** The extraction loop *)

(** In [analisador_ver3.py] a failed call costs the fragment and nothing
    else: the message is printed, no record is added, the loop goes on. *)
Lemma passo_ver3_transport_failure : forall gemini json_loads i b st,
  admissivel b = true -> gemini b = None ->
  passo_ver3 gemini json_loads i b st
  = Ok (MkEstado (lista st) (enviados st ++ [b])
          (log st ++ [Analisando (S i)] ++ [ErroAPI])).
Proof.
  intros gemini json_loads i b st Ha Hg.
  unfold passo_ver3, enviar_prompt_para_bloco. rewrite Ha, Hg. simpl.
  unfold registrar, enviar. simpl. now rewrite <- app_assoc.
Qed.

(** The same for a reply that is not JSON. *)
Lemma passo_ver3_invalid_json : forall gemini json_loads i b st text,
  admissivel b = true -> gemini b = Some text ->
  json_loads (replace (lit "```") [] (replace (lit "```json") [] (strip text)))
    = None ->
  exists st',
    passo_ver3 gemini json_loads i b st = Ok st' /\ lista st' = lista st.
Proof.
  intros gemini json_loads i b st text Ha Hg Hj.
  unfold passo_ver3, enviar_prompt_para_bloco. rewrite Ha, Hg.
  cbv beta iota delta [negb].
  destruct (str_truthy _).
  - rewrite Hj. eexists. split; reflexivity.
  - eexists. split; reflexivity.
Qed.

(** An oracle whose every call fails, and one that always answers the
    JSON text [null]. *)
Definition gemini_down : str -> option str := fun _ => None.
Definition gemini_null : str -> option str := fun _ => Some (lit "null").

(** A parser that knows the one text [null]. *)
Definition loads_null (s : str) : option json :=
  if str_eqb s (lit "null") then Some JNull else None.

Definition texto_um_decreto : str :=
  lit "DECRETO Nº 13/2023 Art. 1º Fica aberto crédito. Art. 2º Anulação.".

(** C3: with an oracle whose call fails, [analisador_ver4.py] does not
    survive its first admissible fragment: [enviar_prompt_para_bloco]
    returns [None] and does not raise, but the loop passes that [None]
    to [json.loads], whose [TypeError] is not the [JSONDecodeError] the
    [except] clause names. On the same input [analisador_ver3.py], which
    tests the reply first, finishes with no record and the failure
    printed. *)
Theorem transport_failure_halts_ver4 : forall json_loads,
  extrair_ver4 gemini_down json_loads texto_um_decreto = Raise TypeError /\
  extrair_ver3 gemini_down json_loads texto_um_decreto
  = Ok (MkEstado [] [texto_um_decreto] [Analisando 1; ErroAPI]).
Proof.
  intros json_loads. split; vm_compute; reflexivity.
Qed.

(** A reply that is JSON but not an object, a list or a string stops
    both versions: ["decretos" in dados] raises [TypeError]. *)
Lemma non_object_reply_halts :
  extrair_ver3 gemini_null loads_null texto_um_decreto = Raise TypeError /\
  extrair_ver4 gemini_null loads_null texto_um_decreto = Raise TypeError.
Proof. split; vm_compute; reflexivity. Qed.

(** ** Instances *)

(** A Unicode table with the Arabic-Indic digits, and a stand-in for the
    [repr] of containers. *)
Definition nd_arabic (c : char) : option N :=
  if (1632 <=? c) && (c <=? 1641) then Some (c - 1632) else None.
Definition repr_brackets (x : json) : str :=
  match x with
  | JArr _ => lit "[]"
  | _ => lit "{}"
  end.

Definition fonte_anulacao : json :=
  JObj [(k_nome, JStr (lit "Anulação de Dotações"));
        (k_valor_fonte, JFloat (lit "2041680.0"));
        (k_codigo, JNull)].
Definition fonte_excesso : json :=
  JObj [(k_nome, JStr excesso);
        (k_valor_fonte, JInt 500000);
        (k_codigo, JStr (lit "1500100000"))].
Definition fonte_excesso_sem_codigo : json :=
  JObj [(k_nome, JStr excesso); (k_valor_fonte, JStr (lit "100,00"))].

Definition decreto_uma_fonte : json :=
  JObj [(k_numero, JStr (lit "08/2023"));
        (k_data, JStr (lit "1 de Agosto de 2023"));
        (k_valor_total, JStr (lit "2.041.680,00"));
        (k_tipo, JStr (lit "Créditos Suplementares"));
        (k_fontes, JArr [fonte_anulacao])].
Definition fontes_duas : list json :=
  [fonte_excesso; fonte_anulacao; fonte_excesso_sem_codigo].
Definition decreto_varias_fontes : json :=
  JObj [(k_numero, JStr (lit "13/2023"));
        (k_data, JStr (lit "28 de Dezembro de 2023"));
        (k_valor_total, JInt 2541780);
        (k_tipo, JStr (lit "Créditos Suplementares"));
        (k_fontes, JArr fontes_duas)].
Definition decreto_sem_fontes : dict :=
  [(k_numero, JStr (lit "14/2023")); (k_valor_total, JNull)].

Example reconcile_two_decrees :
  reconcile nd_arabic repr_brackets set_rev
    [decreto_uma_fonte; decreto_varias_fontes]
  = Ok ([ [(col_numero, JStr (lit "08/2023"));
           (col_data, JStr (lit "1 de Agosto de 2023"));
           (col_valor, JStr (lit "2.041.680,00"));
           (col_tipo, JStr (lit "Créditos Suplementares"));
           (col_fonte, JStr (lit "Anulação de Dotações"))];
          [(col_numero, JStr (lit "13/2023"));
           (col_data, JStr (lit "28 de Dezembro de 2023"));
           (col_valor, JStr (lit "2.541.780,00"));
           (col_tipo, JStr (lit "Créditos Suplementares"));
           (col_fonte,
            JStr (lit "Anulação de Dotações, Excesso de Arrecadação"))] ],
        List.map (row2 nd_arabic repr_brackets decreto_varias_fontes)
          fontes_duas,
        [ [(col_numero, JStr (lit "13/2023"));
           (col_data, JStr (lit "28 de Dezembro de 2023"));
           (col_fonte, JStr excesso);
           (col_codigo, JStr (lit "1500100000"))];
          [(col_numero, JStr (lit "13/2023"));
           (col_data, JStr (lit "28 de Dezembro de 2023"));
           (col_fonte, JStr excesso);
           (col_codigo, JStr nao_encontrado)] ]).
Proof. vm_compute. reflexivity. Qed.

Lemma startswith_iff : forall p s,
  startswith p s = true <-> exists post, s = p ++ post.
Proof.
  induction p as [|x p IH]; intros s; simpl.
  - split; [intros _; now exists s|reflexivity].
  - destruct s as [|y s].
    + split; [discriminate|]. intros [post H]. discriminate.
    + rewrite andb_true_iff, IH. unfold char_eqb. rewrite N.eqb_eq. split.
      * intros [-> [post ->]]. now exists post.
      * intros [post H]. injection H as -> ->. split; [reflexivity|now exists post].
Qed.

Lemma contains_iff : forall p s,
  contains p s = true <-> exists pre post, s = pre ++ p ++ post.
Proof.
  intros p. induction s as [|c t IH].
  - simpl. rewrite orb_false_r, startswith_iff. split.
    + intros [post H]. now exists [], post.
    + intros [pre [post H]]. destruct pre; [now exists post|discriminate].
  - simpl. rewrite orb_true_iff, IH, startswith_iff. split.
    + intros [[post H]|[pre [post ->]]].
      * now exists [], post.
      * now exists (c :: pre), post.
    + intros [pre [post H]]. destruct pre as [|x pre].
      * left. now exists post.
      * right. injection H as -> ->. now exists pre, post.
Qed.

Lemma contains_art_marcador : forall n b,
  contains [65; 114; 116; 46; 32; n; 186] b = true -> marcador n b.
Proof.
  intros n b H. apply contains_iff in H as [pre [post ->]].
  exists pre, 65, 114, 116, [32], 186, post.
  split; [reflexivity|]. split; [now right|]. split; [now left|].
  split; [now left|]. split; [|now left].
  constructor; [reflexivity|constructor].
Qed.

(** X12: every fragment the test of [analisador_ver2.py] admits, the
    test of [analisador_ver3.py] and [analisador_ver4.py] admits. *)
Lemma admissivel_ver2_sound : forall b,
  admissivel_ver2 b = true -> admissivel b = true.
Proof.
  intros b H. unfold admissivel_ver2 in H.
  apply andb_prop in H as [H H2]. apply andb_prop in H as [_ H1].
  apply admissivel_iff. split.
  - apply contains_art_marcador. exact H1.
  - apply contains_art_marcador. exact H2.
Qed.

Definition bloco_maiusculo : str :=
  lit "DECRETO Nº 2 ART. 1° abre crédito Art.2o anula dotações".

(** C4: the test of [analisador_ver2.py] looks for the exact substrings
    "Art. 1º" and "Art. 2º". A fragment that holds both markers, written
    in capitals, with the degree sign or with the letter o, is admitted
    by [analisador_ver3.py] and [analisador_ver4.py] and discarded by
    [analisador_ver2.py]. *)
Theorem admissivel_ver2_rejects_marked_fragment :
  marcador 49 bloco_maiusculo /\ marcador 50 bloco_maiusculo /\
  admissivel bloco_maiusculo = true /\
  admissivel_ver2 bloco_maiusculo = false.
Proof.
  assert (Ha : admissivel bloco_maiusculo = true) by reflexivity.
  pose proof (proj1 (admissivel_iff bloco_maiusculo) Ha) as [H1 H2].
  split; [exact H1|]. split; [exact H2|]. split; [exact Ha|reflexivity].
Qed.

Lemma table2_rows_witness :
  fontes_de decreto_varias_fontes = Some fontes_duas /\
  forallb fonte_valida fontes_duas = true /\
  exists r1 r2 r3,
    reconcile_decreto nd_arabic repr_brackets set_rev decreto_varias_fontes
      = Ok (r1, r2, r3) /\
    (List.length fontes_duas = 1%nat -> r2 = []) /\
    ((2 <= List.length fontes_duas)%nat ->
       r2 = List.map (row2 nd_arabic repr_brackets decreto_varias_fontes)
              fontes_duas /\
       List.length r2 = List.length fontes_duas) /\
    (r2 <> [] <-> (1 < List.length fontes_duas)%nat).
Proof.
  split; [reflexivity|]. split; [reflexivity|].
  apply (table2_rows_iff_multiple_sources nd_arabic repr_brackets set_rev
           decreto_varias_fontes fontes_duas); reflexivity.
Defined.

Lemma table3_rows_witness :
  forallb decreto_valido [decreto_uma_fonte; decreto_varias_fontes] = true /\
  exists q1 q2 q3,
    reconcile nd_arabic repr_brackets set_rev
      [decreto_uma_fonte; decreto_varias_fontes] = Ok (q1, q2, q3) /\
    Forall (fun r => exists v, lookup col_codigo r = Some v /\ v <> JNull) q3.
Proof.
  split; [reflexivity|].
  destruct (table3_rows_and_codes nd_arabic repr_brackets set_rev
              [decreto_uma_fonte; decreto_varias_fontes] eq_refl)
    as [q1 [q2 [q3 [Hr [_ [_ [Hc _]]]]]]].
  exists q1, q2, q3. split; [exact Hr|exact Hc].
Defined.

Lemma table1_row_witness :
  set_spec set_rev /\
  fontes_de decreto_varias_fontes = Some fontes_duas /\
  forallb fonte_nomeada fontes_duas = true /\
  exists (r1 : row) r2 r3 nomes,
    reconcile_decreto nd_arabic repr_brackets set_rev decreto_varias_fontes
      = Ok (r1, r2, r3) /\
    lookup col_fonte r1 = Some (JStr (join (lit ", ") nomes)) /\
    StronglySorted lt_str nomes /\ NoDup nomes.
Proof.
  split; [exact set_rev_spec|]. split; [reflexivity|]. split; [reflexivity|].
  destruct (table1_row_sorted_distinct_sources nd_arabic repr_brackets set_rev
              set_rev_spec decreto_varias_fontes fontes_duas eq_refl eq_refl)
    as [r1 [r2 [r3 [nomes [Hr [Hl [Hs [Hn _]]]]]]]].
  exists r1, r2, r3, nomes. auto.
Defined.

Lemma reconcile_deterministic_witness :
  set_spec set_first /\ set_spec set_rev /\
  reconcile nd_arabic repr_brackets set_first
    [decreto_uma_fonte; decreto_varias_fontes]
  = reconcile nd_arabic repr_brackets set_rev
      [decreto_uma_fonte; decreto_varias_fontes].
Proof.
  split; [exact set_first_spec|]. split; [exact set_rev_spec|].
  apply (reconcile_deterministic nd_arabic repr_brackets set_first set_rev
           [decreto_uma_fonte; decreto_varias_fontes]
           set_first_spec set_rev_spec).
Defined.

Lemma decree_without_sources_witness :
  set_spec set_first /\
  lookup k_fontes decreto_sem_fontes = None /\
  exists r1 : row,
    reconcile_decreto nd_arabic repr_brackets set_first (JObj decreto_sem_fontes)
      = Ok (r1, [], []) /\
    lookup col_fonte r1 = Some (JStr []) /\
    reconcile nd_arabic repr_brackets set_first [JObj decreto_sem_fontes]
      = Ok ([r1], [], []).
Proof.
  split; [exact set_first_spec|]. split; [reflexivity|].
  apply (decree_without_sources nd_arabic repr_brackets set_first
           set_first_spec decreto_sem_fontes).
  left. reflexivity.
Defined.

(** * Further properties of the reconciliation *)

Definition cols1 : list str := [col_numero; col_data; col_valor; col_tipo; col_fonte].
Definition cols2 : list str := [col_numero; col_data; col_valor_fonte; col_fonte].
Definition cols3 : list str := [col_numero; col_data; col_fonte; col_codigo].

Lemma eq_str_eq : forall v s, eq_str v s = true -> v = JStr s.
Proof.
  intros v s H. destruct v; try discriminate. simpl in H.
  apply str_eqb_eq in H. now subst.
Qed.

(** [len] counts what [for] visits. *)
Lemma py_len_iterate : forall v fs,
  iterate v = Ok fs -> py_len v = Ok (List.length fs).
Proof.
  intros v fs H. destruct v; try discriminate; simpl in *;
    injection H as <-; now rewrite ?length_map.
Qed.

Section ReconcileShape.

Variable nd_extra : char -> option N.
Variable repr_container : json -> str.
Variable set_order : list str -> list str.

Lemma q2_rows_shape : forall dec fs rows,
  q2_rows nd_extra repr_container dec fs = Ok rows ->
  List.length rows = List.length fs /\
  Forall (fun r => List.map fst r = cols2) rows.
Proof.
  intros dec. induction fs as [|f fs IH]; intros rows H; simpl in H.
  - injection H as <-. split; [reflexivity|constructor].
  - unfold bind in H.
    destruct (get k_numero dec); [|discriminate].
    destruct (get k_data dec); [|discriminate].
    destruct (get k_valor_fonte f); [|discriminate].
    destruct (formatar_valor_brl nd_extra repr_container _); [|discriminate].
    destruct (get k_nome f); [|discriminate].
    destruct (q2_rows nd_extra repr_container dec fs) as [rs|]; [|discriminate].
    injection H as <-. destruct (IH rs eq_refl) as [Hl Hf].
    split; [simpl; now rewrite Hl|]. constructor; [reflexivity|exact Hf].
Qed.

Lemma q3_rows_shape : forall dec fs rows,
  q3_rows dec fs = Ok rows ->
  (List.length rows <= List.length fs)%nat /\
  Forall (fun r => List.map fst r = cols3 /\
                   lookup col_fonte r = Some (JStr excesso) /\
                   exists v, lookup col_codigo r = Some v /\ v <> JNull) rows.
Proof.
  intros dec. induction fs as [|f fs IH]; intros rows H; simpl in H.
  - injection H as <-. split; [apply Nat.le_refl|constructor].
  - unfold bind in H.
    destruct (get k_nome f) as [n|] eqn:Hn; [|discriminate].
    destruct (eq_str n excesso) eqn:He.
    + apply eq_str_eq in He. subst n.
      destruct (get k_numero dec); [|discriminate].
      destruct (get k_data dec); [|discriminate].
      destruct (get k_codigo f) as [c|]; [|discriminate].
      destruct (q3_rows dec fs) as [rs|]; [|discriminate].
      injection H as <-. destruct (IH rs eq_refl) as [Hl Hf].
      split; [simpl; lia|]. constructor; [|exact Hf].
      split; [reflexivity|]. split; [reflexivity|].
      exists (py_or c (JStr nao_encontrado)).
      split; [reflexivity|apply py_or_not_null].
    + destruct (IH rows H) as [Hl Hf]. split; [simpl; lia|exact Hf].
Qed.

Lemma reconcile_decreto_shape : forall dec r1 r2 r3,
  reconcile_decreto nd_extra repr_container set_order dec = Ok (r1, r2, r3) ->
  List.map fst r1 = cols1 /\
  Forall (fun r => List.map fst r = cols2) r2 /\
  List.length r2 <> 1%nat /\
  Forall (fun r => List.map fst r = cols3 /\
                   lookup col_fonte r = Some (JStr excesso) /\
                   exists v, lookup col_codigo r = Some v /\ v <> JNull) r3.
Proof.
  intros dec r1 r2 r3 H. unfold reconcile_decreto, bind in H.
  destruct (get_default k_fontes (JArr []) dec) as [fontes|]; [|discriminate].
  destruct (iterate fontes) as [fs|] eqn:Hi; [|discriminate].
  destruct (nomes_brutos fs); [|discriminate].
  destruct (as_strs _); [|discriminate].
  destruct (get k_numero dec); [|discriminate].
  destruct (get k_data dec); [|discriminate].
  destruct (get k_valor_total dec); [|discriminate].
  destruct (formatar_valor_brl nd_extra repr_container _); [|discriminate].
  destruct (get k_tipo dec); [|discriminate].
  rewrite (py_len_iterate fontes fs Hi) in H.
  destruct (Nat.ltb_spec 1 (List.length fs)) as [Hlt|Hge].
  - destruct (q2_rows nd_extra repr_container dec fs) as [rows2|] eqn:H2;
      [|discriminate].
    destruct (q3_rows dec fs) as [rows3|] eqn:H3; [|discriminate].
    injection H as <- <- <-.
    destruct (q2_rows_shape dec fs rows2 H2) as [Hl Hf].
    destruct (q3_rows_shape dec fs rows3 H3) as [_ Hf3].
    split; [reflexivity|]. split; [exact Hf|]. split; [lia|exact Hf3].
  - destruct (q3_rows dec fs) as [rows3|] eqn:H3; [|discriminate].
    injection H as <- <- <-.
    destruct (q3_rows_shape dec fs rows3 H3) as [_ Hf3].
    split; [reflexivity|]. split; [constructor|].
    split; [discriminate|exact Hf3].
Qed.

End ReconcileShape.

(** The [fontes] values the loop body gets through: a list of valid
    sources, and the two empty iterables that are not lists. *)
Definition fontes_aceitas (v : json) : bool :=
  match v with
  | JArr fs => forallb fonte_valida fs
  | JStr [] => true
  | JObj [] => true
  | _ => false
  end.

Definition decreto_aceito (dec : json) : bool :=
  match dec with
  | JObj d =>
    fontes_aceitas
      (match lookup k_fontes d with Some v => v | None => JArr [] end)
  | _ => false
  end.

Lemma nomes_brutos_validas : forall fs bs ns,
  nomes_brutos fs = Ok bs -> as_strs bs = Ok ns ->
  forallb fonte_valida fs = true.
Proof.
  induction fs as [|f fs IH]; intros bs ns Hb Hs; [reflexivity|].
  simpl in Hb. unfold bind in Hb.
  destruct (get k_nome f) as [c|] eqn:Hc; [|discriminate].
  assert (Ho : is_obj f = true) by (destruct f; try discriminate; reflexivity).
  rewrite (get_obj k_nome f Ho) in Hc. injection Hc as <-.
  simpl. unfold fonte_valida at 1. rewrite Ho. simpl.
  destruct (truthy (field k_nome f)) eqn:Ht.
  - destruct (nomes_brutos fs) as [bs'|]; [|discriminate].
    injection Hb as <-. simpl in Hs.
    destruct (field k_nome f); try discriminate.
    unfold bind in Hs. destruct (as_strs bs') as [ns'|] eqn:Hs'; [|discriminate].
    simpl. now apply (IH bs' ns').
  - rewrite (IH bs ns Hb Hs), andb_true_r.
    destruct (field k_nome f); try reflexivity; simpl in *; now rewrite Ht.
Qed.

Section ReconcileTables.

Variable nd_extra : char -> option N.
Variable repr_container : json -> str.
Variable set_order : list str -> list str.

(** X1: the loop body of the reconciliation goes through for a record
    exactly when the record is an object whose [fontes] is missing, or is
    a list of objects whose names are strings or false values, or is an
    empty string or an empty object; for every other record (not an
    object, [fontes] null or a number, a source that is not an object, a
    name that is a number) it raises. *)
Theorem reconcile_decreto_ok_iff : forall dec,
  (exists r, reconcile_decreto nd_extra repr_container set_order dec = Ok r)
  <-> decreto_aceito dec = true.
Proof.
  intros dec. split.
  - intros [r H]. unfold reconcile_decreto, bind in H.
    destruct dec as [| | | | | |d]; try discriminate. simpl in H. simpl.
    destruct (match lookup k_fontes d with Some v => v | None => JArr [] end)
      as [| | | |s|fs|d'] eqn:Hf; try discriminate; simpl in H.
    + destruct s as [|c s]; [reflexivity|]. simpl in H. discriminate.
    + destruct (nomes_brutos fs) as [bs|] eqn:Hb; [|discriminate].
      destruct (as_strs bs) as [ns|] eqn:Hs; [|discriminate].
      simpl. now apply (nomes_brutos_validas fs bs ns).
    + destruct d' as [|kv d']; [reflexivity|]. simpl in H. discriminate.
  - intros H. destruct dec as [| | | | | |d]; try discriminate. simpl in H.
    destruct (lookup k_fontes d) as [v|] eqn:Hl.
    + destruct v as [| | | |s|fs|d']; try discriminate.
      * destruct s; [|discriminate]. eexists.
        unfold reconcile_decreto, get_default. rewrite Hl. simpl.
        rewrite formatar_fmt. simpl. reflexivity.
      * eexists. apply reconcile_decreto_valid; [|exact H].
        simpl. now rewrite Hl.
      * destruct d'; [|discriminate]. eexists.
        unfold reconcile_decreto, get_default. rewrite Hl. simpl.
        rewrite formatar_fmt. simpl. reflexivity.
    + eexists. apply reconcile_decreto_valid; [|exact H].
      simpl. now rewrite Hl.
Qed.

(** X2: the tables of a concatenation of record lists are the
    concatenations of the tables, and the first exception met, in list
    order, is the one raised. *)
Theorem reconcile_app : forall l1 l2,
  reconcile nd_extra repr_container set_order (l1 ++ l2) =
  ('(a1, a2, a3) <- reconcile nd_extra repr_container set_order l1 ;;
   '(b1, b2, b3) <- reconcile nd_extra repr_container set_order l2 ;;
   Ok (a1 ++ b1, a2 ++ b2, a3 ++ b3)).
Proof.
  induction l1 as [|dec l1 IH]; intros l2.
  - simpl. destruct (reconcile nd_extra repr_container set_order l2)
      as [[[b1 b2] b3]|e]; reflexivity.
  - simpl. rewrite IH.
    destruct (reconcile_decreto nd_extra repr_container set_order dec)
      as [[[r1 r2] r3]|e]; [|reflexivity].
    simpl.
    destruct (reconcile nd_extra repr_container set_order l1)
      as [[[a1 a2] a3]|e]; [|reflexivity].
    simpl.
    destruct (reconcile nd_extra repr_container set_order l2)
      as [[[b1 b2] b3]|e]; [|reflexivity].
    simpl. now rewrite !app_assoc.
Qed.

Lemma reconcile_shape : forall decs q1 q2 q3,
  reconcile nd_extra repr_container set_order decs = Ok (q1, q2, q3) ->
  List.length q1 = List.length decs /\
  Forall (fun r => List.map fst r = cols1) q1 /\
  Forall (fun r => List.map fst r = cols2) q2 /\
  List.length q2 <> 1%nat /\
  Forall (fun r => List.map fst r = cols3 /\
                   lookup col_fonte r = Some (JStr excesso) /\
                   exists v, lookup col_codigo r = Some v /\ v <> JNull) q3.
Proof.
  induction decs as [|dec decs IH]; intros q1 q2 q3 H; simpl in H.
  - injection H as <- <- <-. repeat split; try constructor. discriminate.
  - unfold bind in H.
    destruct (reconcile_decreto nd_extra repr_container set_order dec)
      as [[[r1 r2] r3]|] eqn:Hd; [|discriminate].
    destruct (reconcile nd_extra repr_container set_order decs)
      as [[[a1 a2] a3]|] eqn:Hr; [|discriminate].
    injection H as <- <- <-.
    destruct (IH a1 a2 a3 eq_refl) as [Hl [H1 [H2 [Hn H3]]]].
    destruct (reconcile_decreto_shape nd_extra repr_container set_order
                dec r1 r2 r3 Hd) as [S1 [S2 [Sn S3]]].
    split; [simpl; now rewrite Hl|]. split; [now constructor|].
    split; [apply Forall_app; now split|].
    split; [|apply Forall_app; now split].
    rewrite length_app. intros Hone.
    destruct r2 as [|x [|y r2]]; simpl in *; lia.
Qed.

(** X3: in a run of the reconciliation that completes, Table 1 has one
    row per record, and every row of a table has that table's columns, in
    the order of the dict literal: five for Table 1, four for Tables 2
    and 3. *)
Theorem tables_have_fixed_columns : forall decs q1 q2 q3,
  reconcile nd_extra repr_container set_order decs = Ok (q1, q2, q3) ->
  List.length q1 = List.length decs /\
  Forall (fun r => List.map fst r = cols1) q1 /\
  Forall (fun r => List.map fst r = cols2) q2 /\
  Forall (fun r => List.map fst r = cols3) q3.
Proof.
  intros decs q1 q2 q3 H.
  destruct (reconcile_shape decs q1 q2 q3 H) as [Hl [H1 [H2 [_ H3]]]].
  split; [exact Hl|]. split; [exact H1|]. split; [exact H2|].
  eapply Forall_impl; [|exact H3]. intros r Hr. apply Hr.
Qed.

(** X4: in a run that completes, whatever the records, Table 2 never has
    exactly one row (a record gives it none or at least two), and every
    row of Table 3 names "Excesso de Arrecadação" and has a code that is
    not null. *)
Theorem table2_table3_row_facts : forall decs q1 q2 q3,
  reconcile nd_extra repr_container set_order decs = Ok (q1, q2, q3) ->
  List.length q2 <> 1%nat /\
  Forall (fun r => lookup col_fonte r = Some (JStr excesso) /\
                   exists v, lookup col_codigo r = Some v /\ v <> JNull) q3.
Proof.
  intros decs q1 q2 q3 H.
  destruct (reconcile_shape decs q1 q2 q3 H) as [_ [_ [_ [Hn H3]]]].
  split; [exact Hn|].
  eapply Forall_impl; [|exact H3]. intros r Hr. apply Hr.
Qed.

End ReconcileTables.

Lemma tables_have_fixed_columns_witness :
  exists q1 q2 q3,
    reconcile nd_arabic repr_brackets set_rev
      [decreto_uma_fonte; decreto_varias_fontes] = Ok (q1, q2, q3) /\
    List.length q1 = List.length [decreto_uma_fonte; decreto_varias_fontes] /\
    Forall (fun r => List.map fst r = cols1) q1 /\
    Forall (fun r => List.map fst r = cols2) q2 /\
    Forall (fun r => List.map fst r = cols3) q3.
Proof.
  eexists _, _, _. split; [vm_compute; reflexivity|].
  apply (tables_have_fixed_columns nd_arabic repr_brackets set_rev
           [decreto_uma_fonte; decreto_varias_fontes]).
  vm_compute. reflexivity.
Defined.

Lemma table2_table3_row_facts_witness :
  exists q1 q2 q3,
    reconcile nd_arabic repr_brackets set_first
      [decreto_varias_fontes; decreto_uma_fonte] = Ok (q1, q2, q3) /\
    List.length q2 <> 1%nat /\
    Forall (fun r => lookup col_fonte r = Some (JStr excesso) /\
                     exists v, lookup col_codigo r = Some v /\ v <> JNull) q3.
Proof.
  eexists _, _, _. split; [vm_compute; reflexivity|].
  eapply (table2_table3_row_facts nd_arabic repr_brackets set_first
            [decreto_varias_fontes; decreto_uma_fonte]).
  vm_compute. reflexivity.
Defined.

(** * Further properties of the extraction loop *)


(** The records of a run, or the exception that ended it. *)
Definition registros (r : res estado) : res (list json) :=
  match r with
  | Ok st => Ok (lista st)
  | Raise e => Raise e
  end.

Section LoopFacts.

Variable gemini : str -> option str.
Variable json_loads : str -> option json.

Lemma aceitar_ok : forall chave ne i dados st st',
  aceitar chave ne i dados st = Ok st' ->
  enviados st' = enviados st /\
  exists extra, lista st' = lista st ++ extra.
Proof.
  intros chave ne i dados st st' H. unfold aceitar, bind in H.
  destruct (py_in chave dados) as [[|]|]; try discriminate.
  - destruct (getitem chave dados) as [v|]; [|discriminate].
    destruct v; try (injection H as <-; split; [reflexivity|];
                     exists []; simpl; now rewrite app_nil_r).
    destruct (ne && negb (Nat.ltb 0 (List.length l))); injection H as <-.
    + split; [reflexivity|]. exists []. simpl. now rewrite app_nil_r.
    + split; [reflexivity|]. now exists l.
  - injection H as <-. split; [reflexivity|]. exists []. simpl.
    now rewrite app_nil_r.
Qed.


Lemma passo_ver3_ok : forall i b st st',
  passo_ver3 gemini json_loads i b st = Ok st' ->
  enviados st' = enviados st ++ (if admissivel b then [b] else []) /\
  exists extra, lista st' = lista st ++ extra.
Proof.
  intros i b st st' H. unfold passo_ver3, enviar_prompt_para_bloco in H.
  destruct (admissivel b); simpl in H.
  - destruct (gemini b) as [text|].
    + destruct (str_truthy _).
      * destruct (json_loads _) as [dados|].
        -- apply aceitar_ok in H as [He Hl]. simpl in *. auto.
        -- injection H as <-. simpl. split; [reflexivity|].
           exists []. now rewrite app_nil_r.
      * injection H as <-. simpl. split; [reflexivity|].
        exists []. now rewrite app_nil_r.
    + injection H as <-. simpl. split; [reflexivity|].
      exists []. now rewrite app_nil_r.
  - injection H as <-. rewrite !app_nil_r. split; [reflexivity|].
    exists []. now rewrite app_nil_r.
Qed.

Lemma passo_ver4_ok : forall i b st st',
  passo_ver4 gemini json_loads i b st = Ok st' ->
  enviados st' =
    enviados st ++ (if admissivel b then [lit "DECRETO " ++ b] else []) /\
  exists extra, lista st' = lista st ++ extra.
Proof.
  intros i b st st' H. unfold passo_ver4, enviar_prompt_para_bloco in H.
  destruct (admissivel b); simpl in H.
  - destruct (gemini _) as [text|]; [|discriminate].
    destruct (json_loads _) as [dados|].
    + apply aceitar_ok in H as [He Hl]. simpl in *. auto.
    + injection H as <-. simpl. split; [reflexivity|].
      exists []. now rewrite app_nil_r.
  - injection H as <-. rewrite !app_nil_r. split; [reflexivity|].
    exists []. now rewrite app_nil_r.
Qed.

Lemma percorrer_ok : forall passo (f : str -> list str),
  (forall i b st st', passo i b st = Ok st' ->
     enviados st' = enviados st ++ f b /\
     exists extra, lista st' = lista st ++ extra) ->
  forall blocos st st',
  percorrer passo blocos st = Ok st' ->
  enviados st' = enviados st ++ List.flat_map f (List.map snd blocos) /\
  exists extra, lista st' = lista st ++ extra.
Proof.
  intros passo f Hp. induction blocos as [|[i b] blocos IH]; intros st st' H.
  - injection H as <-. simpl. rewrite app_nil_r. split; [reflexivity|].
    exists []. now rewrite app_nil_r.
  - simpl in H. unfold bind in H.
    destruct (passo i b st) as [st1|] eqn:H1; [|discriminate].
    destruct (Hp i b st st1 H1) as [He [x1 Hl]].
    destruct (IH st1 st' H) as [He' [x2 Hl']].
    split.
    + rewrite He', He. simpl. now rewrite app_assoc.
    + exists (x1 ++ x2). rewrite Hl', Hl. now rewrite app_assoc.
Qed.

Lemma flat_map_filter : forall (g : str -> str) (bs : list str),
  List.flat_map (fun b => if admissivel b then [g b] else []) bs
  = List.map g (List.filter admissivel bs).
Proof.
  intros g. induction bs as [|b bs IH]; [reflexivity|].
  simpl. destruct (admissivel b); simpl; now rewrite IH.
Qed.

(** X5: when a run of [analisador_ver3.py] completes, the oracle has
    been called exactly once for each admissible fragment, with the
    fragment as it was cut and in the order of the text, and for no other
    fragment. *)
Theorem ver3_calls_once_per_admissible_fragment : forall texto st,
  extrair_ver3 gemini json_loads texto = Ok st ->
  enviados st = List.filter admissivel (segment texto).
Proof.
  intros texto st H. unfold extrair_ver3 in H.
  destruct (percorrer_ok (passo_ver3 gemini json_loads)
              (fun b => if admissivel b then [b] else [])
              passo_ver3_ok _ _ _ H) as [He _].
  rewrite He. simpl. unfold enumerate. rewrite enumerate_from_snd.
  rewrite (flat_map_filter (fun b => b)). now rewrite map_id.
Qed.

(** X6: when a run of [analisador_ver4.py] completes, the oracle has
    been called exactly once for each admissible fragment, in the order
    of the text, with "DECRETO " put before the fragment. *)
Theorem ver4_calls_once_per_admissible_fragment : forall texto st,
  extrair_ver4 gemini json_loads texto = Ok st ->
  enviados st
  = List.map (fun b => lit "DECRETO " ++ b)
      (List.filter admissivel (segment texto)).
Proof.
  intros texto st H. unfold extrair_ver4 in H.
  destruct (percorrer_ok (passo_ver4 gemini json_loads)
              (fun b => if admissivel b then [lit "DECRETO " ++ b] else [])
              passo_ver4_ok _ _ _ H) as [He _].
  rewrite He. simpl. unfold enumerate. rewrite enumerate_from_snd.
  apply (flat_map_filter (fun b => lit "DECRETO " ++ b)).
Qed.






Lemma percorrer_ver4_down : forall bs i st,
  (forall s, gemini s = None) ->
  percorrer (passo_ver4 gemini json_loads) (enumerate_from i bs) st
  = if List.existsb admissivel bs then Raise TypeError else Ok st.
Proof.
  intros bs i st Hg. revert i. induction bs as [|b bs IH]; intros i.
  - reflexivity.
  - simpl. unfold passo_ver4 at 1, enviar_prompt_para_bloco.
    destruct (admissivel b); simpl.
    + now rewrite Hg.
    + apply IH.
Qed.

Lemma percorrer_ver3_down : forall bs i st,
  (forall s, gemini s = None) ->
  exists st',
    percorrer (passo_ver3 gemini json_loads) (enumerate_from i bs) st = Ok st' /\
    lista st' = lista st.
Proof.
  intros bs i st Hg. revert i st. induction bs as [|b bs IH]; intros i st.
  - now exists st.
  - simpl. unfold passo_ver3 at 1, enviar_prompt_para_bloco.
    destruct (admissivel b); simpl.
    + rewrite Hg. simpl.
      destruct (IH (S i) (registrar ErroAPI
                            (enviar b (registrar (Analisando (S i)) st))))
        as [st' [H Hl]].
      exists st'. split; [exact H|]. rewrite Hl. reflexivity.
    + apply IH.
Qed.

(** X9: with the oracle down, [analisador_ver3.py] finishes every
    corpus with no record extracted, while [analisador_ver4.py] raises
    [TypeError] on every corpus that has an admissible fragment and
    finishes, having done nothing, on the others. *)
Theorem oracle_down :
  (forall s, gemini s = None) ->
  forall texto,
  (exists st, extrair_ver3 gemini json_loads texto = Ok st /\ lista st = []) /\
  extrair_ver4 gemini json_loads texto
  = if List.existsb admissivel (segment texto)
    then Raise TypeError else Ok estado_inicial.
Proof.
  intros Hg texto. split.
  - unfold extrair_ver3, enumerate.
    destruct (percorrer_ver3_down (segment texto) O estado_inicial Hg)
      as [st [H Hl]].
    exists st. split; [exact H|exact Hl].
  - unfold extrair_ver4, enumerate. now apply percorrer_ver4_down.
Qed.

End LoopFacts.

Lemma enumerate_from_app : forall (A : Type) (l1 l2 : list A) i,
  enumerate_from i (l1 ++ l2)
  = enumerate_from i l1 ++ enumerate_from (i + List.length l1) l2.
Proof.
  induction l1 as [|a l1 IH]; intros l2 i; simpl.
  - now rewrite Nat.add_0_r.
  - rewrite IH. now rewrite Nat.add_succ_r.
Qed.

Lemma percorrer_app : forall passo l1 l2 st,
  percorrer passo (l1 ++ l2) st
  = (st' <- percorrer passo l1 st ;; percorrer passo l2 st').
Proof.
  intros passo. induction l1 as [|[i b] l1 IH]; intros l2 st; [reflexivity|].
  simpl. destruct (passo i b st) as [st1|e]; simpl; [apply IH|reflexivity].
Qed.

Section LoopIsolation.

Variable gemini : str -> option str.
Variable json_loads : str -> option json.

(** The records after an iteration depend on the records before it and
    on the fragment, not on its number nor on what was sent or printed. *)
Lemma aceitar_registros : forall chave ne i j dados st1 st2,
  lista st1 = lista st2 ->
  registros (aceitar chave ne i dados st1)
  = registros (aceitar chave ne j dados st2).
Proof.
  intros chave ne i j dados st1 st2 Hl. unfold aceitar, bind.
  destruct (py_in chave dados) as [[|]|]; simpl; try congruence.
  destruct (getitem chave dados) as [v|]; simpl; [|reflexivity].
  destruct v; simpl; try congruence.
  destruct (ne && negb (Nat.ltb 0 (List.length l))); simpl; congruence.
Qed.

Lemma passo_ver3_registros : forall i j b st1 st2,
  lista st1 = lista st2 ->
  registros (passo_ver3 gemini json_loads i b st1)
  = registros (passo_ver3 gemini json_loads j b st2).
Proof.
  intros i j b st1 st2 Hl. unfold passo_ver3, enviar_prompt_para_bloco.
  destruct (admissivel b); simpl; [|congruence].
  destruct (gemini b) as [text|]; simpl; [|congruence].
  destruct (str_truthy _); simpl; [|congruence].
  destruct (json_loads _) as [dados|]; simpl; [|congruence].
  now apply aceitar_registros.
Qed.

Lemma percorrer_ver3_registros : forall bs i j st1 st2,
  lista st1 = lista st2 ->
  registros (percorrer (passo_ver3 gemini json_loads) (enumerate_from i bs) st1)
  = registros (percorrer (passo_ver3 gemini json_loads) (enumerate_from j bs) st2).
Proof.
  induction bs as [|b bs IH]; intros i j st1 st2 Hl; simpl; [congruence|].
  pose proof (passo_ver3_registros i j b st1 st2 Hl) as Hp.
  destruct (passo_ver3 gemini json_loads i b st1) as [s1|e1];
    destruct (passo_ver3 gemini json_loads j b st2) as [s2|e2];
    simpl in *; try discriminate.
  - injection Hp as Hp. now apply IH.
  - exact Hp.
Qed.

(** A fragment on which the extraction fails: the call raises, or the
    reply, once the fence is removed, is not JSON. *)
Definition falha (b : str) : Prop :=
  gemini b = None \/
  exists text, gemini b = Some text /\
    json_loads (replace (lit "```") [] (replace (lit "```json") [] (strip text)))
      = None.

Lemma passo_ver3_falha : forall i b st,
  falha b ->
  exists st', passo_ver3 gemini json_loads i b st = Ok st' /\
              lista st' = lista st.
Proof.
  intros i b st Hf. unfold passo_ver3, enviar_prompt_para_bloco.
  destruct (admissivel b); cbv beta iota delta [negb]; [|now exists st].
  destruct Hf as [Hn|[text [Ht Hj]]].
  - rewrite Hn. eexists. split; reflexivity.
  - rewrite Ht. destruct (str_truthy _).
    + rewrite Hj. eexists. split; reflexivity.
    + eexists. split; reflexivity.
Qed.

(** X10: in [analisador_ver3.py] a fragment on which the extraction
    fails (the call raises, or the reply is not JSON) costs nothing but
    itself: the records extracted from the corpus, or the exception that
    ends the run, are those of the same fragments without it. *)
Theorem failed_fragment_contributes_nothing : forall bs1 b bs2,
  falha b ->
  registros (percorrer (passo_ver3 gemini json_loads)
               (enumerate (bs1 ++ b :: bs2)) estado_inicial)
  = registros (percorrer (passo_ver3 gemini json_loads)
                 (enumerate (bs1 ++ bs2)) estado_inicial).
Proof.
  intros bs1 b bs2 Hf. unfold enumerate.
  rewrite !enumerate_from_app, !percorrer_app. simpl.
  destruct (percorrer (passo_ver3 gemini json_loads)
              (enumerate_from 0 bs1) estado_inicial) as [st1|e];
    [|reflexivity].
  simpl.
  destruct (passo_ver3_falha (List.length bs1) b st1 Hf) as [st' [Hp Hl]].
  rewrite Hp. simpl. now apply percorrer_ver3_registros.
Qed.

End LoopIsolation.

(** ** Instances for the loop *)

(** The JSON text of an object with one key, whose value is a list
    with one empty object. *)
Definition json_um_registro (chave : str) : str :=
  lit "{" ++ [34] ++ chave ++ [34] ++ lit ": [{}]}".

(** A parser for the two texts the sample oracles reply with. *)
Definition loads_objetos (s : str) : option json :=
  if str_eqb s (json_um_registro (lit "decretos"))
  then Some (JObj [(lit "decretos", JArr [JObj []])])
  else if str_eqb s (json_um_registro (lit "quadro1"))
  then Some (JObj [(lit "quadro1", JArr [JObj []])])
  else None.


(** An oracle that replies with a fenced object, one that does so except
    on the decree numbered 2, where its call fails. *)
Definition gemini_cercado (chave : str) : str -> option str :=
  fun _ => Some (lit "```json" ++ json_um_registro chave ++ lit "```").
Definition gemini_falha_2 : str -> option str :=
  fun b => if contains (lit "Nº 2 ") b then None
           else gemini_cercado (lit "decretos") b.

Definition bloco_1 : str := lit "DECRETO Nº 1 Art. 1º abre Art. 2º anula".
Definition bloco_2 : str := lit "DECRETO Nº 2 Art. 1º abre Art. 2º anula".
Definition bloco_3 : str := lit "DECRETO Nº 3 Art. 1º abre Art. 2º anula".
Definition texto_tres_decretos : str :=
  bloco_1 ++ [10] ++ bloco_2 ++ [10] ++ lit "LEI Nº 9" ++ [10] ++ bloco_3.

Lemma ver3_calls_witness :
  exists st,
    extrair_ver3 gemini_falha_2 loads_objetos texto_tres_decretos = Ok st /\
    enviados st = List.filter admissivel (segment texto_tres_decretos).
Proof.
  eexists. split; [vm_compute; reflexivity|].
  apply (ver3_calls_once_per_admissible_fragment gemini_falha_2 loads_objetos
           texto_tres_decretos).
  vm_compute. reflexivity.
Defined.

Lemma ver4_calls_witness :
  exists st,
    extrair_ver4 (gemini_cercado (lit "quadro1")) loads_objetos
      texto_tres_decretos = Ok st /\
    enviados st
    = List.map (fun b => lit "DECRETO " ++ b)
        (List.filter admissivel (segment texto_tres_decretos)).
Proof.
  eexists. split; [vm_compute; reflexivity|].
  apply (ver4_calls_once_per_admissible_fragment
           (gemini_cercado (lit "quadro1")) loads_objetos texto_tres_decretos).
  vm_compute. reflexivity.
Defined.



Lemma oracle_down_witness :
  (forall s, gemini_down s = None) /\
  (exists st,
     extrair_ver3 gemini_down loads_objetos texto_tres_decretos = Ok st /\
     lista st = []) /\
  extrair_ver4 gemini_down loads_objetos texto_tres_decretos
  = if List.existsb admissivel (segment texto_tres_decretos)
    then Raise TypeError else Ok estado_inicial.
Proof.
  split; [reflexivity|].
  apply (oracle_down gemini_down loads_objetos (fun s => eq_refl)).
Defined.

Lemma failed_fragment_witness :
  falha gemini_falha_2 loads_objetos bloco_2 /\
  registros (percorrer (passo_ver3 gemini_falha_2 loads_objetos)
               (enumerate ([bloco_1] ++ bloco_2 :: [bloco_3])) estado_inicial)
  = registros (percorrer (passo_ver3 gemini_falha_2 loads_objetos)
                 (enumerate ([bloco_1] ++ [bloco_3])) estado_inicial).
Proof.
  assert (Hf : falha gemini_falha_2 loads_objetos bloco_2)
    by (left; reflexivity).
  split; [exact Hf|].
  apply (failed_fragment_contributes_nothing gemini_falha_2 loads_objetos
           [bloco_1] bloco_2 [bloco_3] Hf).
Defined.

Example three_decrees_second_fails :
  segment texto_tres_decretos
    = [bloco_1; bloco_2 ++ [10] ++ lit "LEI Nº 9"; bloco_3] /\
  registros (extrair_ver3 gemini_falha_2 loads_objetos texto_tres_decretos)
    = Ok [JObj []; JObj []].
Proof. split; vm_compute; reflexivity. Qed.

Lemma admissivel_ver2_sound_witness :
  admissivel_ver2 bloco_1 = true /\ admissivel bloco_1 = true.
Proof.
  split; [reflexivity|].
  apply (admissivel_ver2_sound bloco_1). reflexivity.
Defined.

(** * Further properties of the segmentation *)

Lemma isspace_not_d : forall c, isspace c = true -> ci 100 c = false.
Proof.
  intros c Hs. destruct (ci 100 c) eqn:Hc; [|reflexivity].
  apply ci_iff in Hc. destruct Hc as [-> | ->]; discriminate.
Qed.

(** A header starts with the letter D, in either case. *)
Lemma cabecalho_first : forall c t, ci 100 c = false -> cabecalho (c :: t) = false.
Proof. intros c t H. unfold cabecalho. simpl. now rewrite H. Qed.

Lemma cabecalho_blank : forall s,
  Forall (fun c => isspace c = true) s -> cabecalho s = false.
Proof.
  intros s H. destruct s as [|c t]; [reflexivity|].
  inversion H; subst. apply cabecalho_first. now apply isspace_not_d.
Qed.

Lemma re_split_blank : forall s,
  Forall (fun c => isspace c = true) s -> re_split s = [s].
Proof.
  induction s as [|c t IH]; intros H; [reflexivity|].
  inversion H as [|? ? Hc Ht]; subst. simpl.
  rewrite (cabecalho_blank t Ht), andb_false_r. now rewrite (IH Ht).
Qed.

Lemma lstrip_blank : forall s,
  Forall (fun c => isspace c = true) s -> lstrip s = [].
Proof.
  induction s as [|c t IH]; intros H; [reflexivity|].
  inversion H as [|? ? Hc Ht]; subst. simpl. rewrite Hc. now apply IH.
Qed.

Lemma strip_blank : forall s,
  Forall (fun c => isspace c = true) s -> strip s = [].
Proof.
  intros s H. unfold strip, rstrip. now rewrite (lstrip_blank s H).
Qed.

(** X13: the segmentation returns no fragment at all exactly when the
    corpus is blank (empty, or white space only); on every other corpus
    there is at least one fragment. *)
Theorem segment_empty_iff_blank : forall texto,
  segment texto = [] <-> Forall (fun c => isspace c = true) texto.
Proof.
  intros texto. split.
  - intros H. pose proof (join_re_split texto) as Hj. unfold segment in H.
    pose proof (re_split_nonempty texto) as Hne.
    destruct (re_split texto) as [|b bs]; [contradiction|].
    destruct (strip b) as [|c r] eqn:Hs; simpl in H; [|discriminate].
    subst bs. simpl in Hj. subst b. now apply strip_nil_blank.
  - intros H. unfold segment. rewrite (re_split_blank texto H).
    now rewrite (strip_blank texto H).
Qed.

Lemma lstrip_app_head : forall t a r y,
  lstrip t = a :: r -> lstrip (t ++ y) = a :: r ++ y.
Proof.
  induction t as [|c t IH]; intros a r y H; [discriminate|].
  simpl in *. destruct (isspace c); [now apply IH|].
  injection H as <- <-. reflexivity.
Qed.

Lemma eat_app : forall ps s r y,
  eat ps s = Some r -> eat ps (s ++ y) = Some (r ++ y).
Proof.
  induction ps as [|p ps IH]; intros s r y H.
  - simpl in H. injection H as <-. reflexivity.
  - destruct s as [|c s]; [discriminate|]. simpl in *.
    destruct (p c); [now apply IH|discriminate].
Qed.

Lemma match_numero_app : forall s y,
  match_numero s = true -> match_numero (s ++ y) = true.
Proof.
  intros s y H. destruct s as [|c t]; [discriminate|]. simpl in *.
  apply andb_prop in H as [Hc H]. rewrite Hc. simpl.
  destruct (lstrip t) as [|n [|o r]] eqn:Hl; try discriminate.
  now rewrite (lstrip_app_head t n (o :: r) y Hl).
Qed.

(** A header stays one when the text goes on. *)
Lemma cabecalho_app : forall s y,
  cabecalho s = true -> cabecalho (s ++ y) = true.
Proof.
  intros s y H. unfold cabecalho in *.
  destruct (eat pat_decreto s) as [r|] eqn:Hd; [|discriminate].
  rewrite (eat_app _ _ _ y Hd).
  destruct (eat pat_orcamentario r) as [r'|] eqn:Ho.
  - rewrite (eat_app _ _ _ y Ho). apply orb_true_iff.
    apply orb_prop in H as [H|H]; [left|right]; now apply match_numero_app.
  - assert (Hm : match_numero (r ++ y) = true) by now apply match_numero_app.
    destruct (eat pat_orcamentario (r ++ y)); [|exact Hm].
    rewrite Hm. apply orb_true_r.
Qed.

Lemma re_split_head_prefix : forall t p ps,
  re_split t = p :: ps -> exists rest, t = p ++ rest.
Proof.
  intros t p ps H. pose proof (join_re_split t) as Hj. rewrite H in Hj.
  destruct ps as [|q ps].
  - exists []. simpl in Hj. now rewrite app_nil_r.
  - exists ([10] ++ join [10] (q :: ps)). now rewrite <- Hj.
Qed.

(** X14: no fragment of the split holds a boundary: splitting a
    fragment again gives the fragment back, whole. *)
Theorem re_split_fragments_final : forall texto f,
  In f (re_split texto) -> re_split f = [f].
Proof.
  induction texto as [|c t IH]; intros f Hin.
  - simpl in Hin. destruct Hin as [<-|[]]. reflexivity.
  - simpl in Hin. destruct ((c =? 10) && cabecalho t) eqn:Hsep.
    + destruct Hin as [<-|Hin]; [reflexivity|now apply IH].
    + pose proof (re_split_nonempty t) as Hne.
      destruct (re_split t) as [|p ps] eqn:Hr; [contradiction|].
      destruct Hin as [<-|Hin]; [|apply IH; now right].
      assert (Hp : re_split p = [p]) by (apply IH; now left).
      simpl. rewrite Hp.
      destruct (re_split_head_prefix t p ps Hr) as [rest Ht].
      assert (Hno : (c =? 10) && cabecalho p = false).
      { destruct (c =? 10); [|reflexivity]. simpl in *.
        destruct (cabecalho p) eqn:Hc; [|reflexivity].
        apply (cabecalho_app p rest) in Hc. rewrite <- Ht in Hc. congruence. }
      now rewrite Hno.
Qed.

Lemma re_split_fragments_final_witness :
  In bloco_1 (re_split texto_tres_decretos) /\ re_split bloco_1 = [bloco_1].
Proof.
  assert (Hin : In bloco_1 (re_split texto_tres_decretos))
    by (vm_compute; left; reflexivity).
  split; [exact Hin|].
  apply (re_split_fragments_final texto_tres_decretos bloco_1 Hin).
Defined.

(** What [eat] consumed. *)
Lemma eat_split : forall ps s r,
  eat ps s = Some r ->
  exists m, s = m ++ r /\ Forall2 (fun p c => p c = true) ps m.
Proof.
  induction ps as [|p ps IH]; intros s r H.
  - simpl in H. injection H as <-. exists []. split; [reflexivity|constructor].
  - destruct s as [|c s]; [discriminate|]. simpl in H.
    destruct (p c) eqn:Hp; [|discriminate].
    destruct (IH s r H) as [m [-> Hm]].
    exists (c :: m). split; [reflexivity|now constructor].
Qed.

Lemma eat_exact : forall ps m x,
  Forall2 (fun p c => p c = true) ps m -> eat ps (m ++ x) = Some x.
Proof.
  intros ps m x H. induction H as [|p c ps m Hp Hm IH]; [reflexivity|].
  simpl. now rewrite Hp.
Qed.

Lemma matched_no_lf : forall ps m,
  Forall (fun p : char -> bool => p 10 = false) ps ->
  Forall2 (fun p c => p c = true) ps m -> ~ In 10 m.
Proof.
  intros ps m Hps H. induction H as [|p c ps m Hp Hm IH]; [intros []|].
  inversion Hps as [|? ? H10 Hps']; subst.
  intros [->|Hin]; [congruence|now apply IH].
Qed.

Lemma pat_decreto_no_lf : Forall (fun p : char -> bool => p 10 = false) pat_decreto.
Proof. repeat constructor. Qed.

Lemma pat_orcamentario_no_lf :
  Forall (fun p : char -> bool => p 10 = false) pat_orcamentario.
Proof. repeat constructor. Qed.

(** Every line feed of [h] is followed, in [h], by a character that is
    not the letter D. *)
Definition guarded (h : str) : Prop :=
  forall h1 h2, h = h1 ++ 10 :: h2 ->
  exists x h3, h2 = x :: h3 /\ ci 100 x = false.

Lemma guarded_app_no_lf : forall a b,
  ~ In 10 a -> guarded b -> guarded (a ++ b).
Proof.
  induction a as [|c a IH]; intros b Ha Hb; [exact Hb|].
  intros h1 h2 H. destruct h1 as [|d h1]; simpl in H.
  - injection H as Hc _. exfalso. apply Ha. now left.
  - injection H as _ H. apply (IH b) with (h1 := h1); try assumption.
    intros Hin. apply Ha. now right.
Qed.

Lemma n_not_d : forall n, ci 110 n = true -> ci 100 n = false /\ n <> 10.
Proof.
  intros n H. apply ci_iff in H. destruct H as [-> | ->]; split;
    try reflexivity; discriminate.
Qed.

Lemma guarded_numero : forall w n o,
  Forall (fun c => isspace c = true) w -> ci 110 n = true ->
  (o = 186 \/ o = 176) -> guarded (w ++ [n; o]).
Proof.
  induction w as [|c w IH]; intros n o Hw Hn Ho h1 h2 H.
  - destruct (n_not_d n Hn) as [_ Hn10]. simpl in H.
    destruct h1 as [|a h1]; [injection H as H _; congruence|].
    injection H as _ H.
    destruct h1 as [|b h1]; [injection H as H _; destruct Ho; subst; discriminate|].
    injection H as _ H. destruct h1; discriminate.
  - inversion Hw as [|? ? Hc Hw']; subst.
    destruct h1 as [|a h1]; simpl in H.
    + injection H as _ <-. destruct w as [|x w]; simpl.
      * exists n, [o]. split; [reflexivity|apply (n_not_d n Hn)].
      * inversion Hw'; subst. exists x, (w ++ [n; o]).
        split; [reflexivity|now apply isspace_not_d].
    + injection H as _ H. now apply (IH n o Hw' Hn Ho h1 h2).
Qed.

Lemma match_numero_split : forall r,
  match_numero r = true ->
  exists w n o rest,
    r = w ++ [n; o] ++ rest /\ w <> [] /\
    Forall (fun c => isspace c = true) w /\ ci 110 n = true /\
    (o = 186 \/ o = 176).
Proof.
  intros r H. destruct r as [|c t]; [discriminate|]. simpl in H.
  apply andb_prop in H as [Hc H].
  destruct (lstrip_split t) as [ws [Ht Hws]].
  destruct (lstrip t) as [|n [|o rest]]; try discriminate.
  apply andb_prop in H as [Hn Ho].
  exists (c :: ws), n, o, rest. split; [simpl; now rewrite Ht at 1|].
  split; [discriminate|]. split; [now constructor|]. split; [exact Hn|].
  apply orb_prop in Ho. rewrite !N.eqb_eq in Ho. exact Ho.
Qed.

Lemma match_numero_word : forall w n o,
  w <> [] -> Forall (fun c => isspace c = true) w -> ci 110 n = true ->
  (o = 186 \/ o = 176) -> match_numero (w ++ [n; o]) = true.
Proof.
  intros w n o Hne Hw Hn Ho. destruct w as [|c w]; [contradiction|].
  inversion Hw as [|? ? Hc Hw']; subst. simpl. rewrite Hc. simpl.
  assert (Hns : isspace n = false).
  { apply ci_iff in Hn. destruct Hn as [-> | ->]; reflexivity. }
  rewrite (lstrip_app w n [o] Hw' Hns). rewrite Hn. simpl.
  destruct Ho as [-> | ->]; reflexivity.
Qed.

(** A text that starts with a header starts with a header word, which
    is a header by itself and in which no line feed is a boundary. *)
Lemma cabecalho_word : forall t,
  cabecalho t = true ->
  exists h rest, t = h ++ rest /\ cabecalho h = true /\ guarded h.
Proof.
  intros t H. unfold cabecalho in H.
  destruct (eat pat_decreto t) as [r|] eqn:Hd; [|discriminate].
  destruct (eat_split _ _ _ Hd) as [md [-> Hmd]].
  pose proof (matched_no_lf _ _ pat_decreto_no_lf Hmd) as Hno_d.
  assert (Hcase :
    (exists mo r', r = mo ++ r' /\
       Forall2 (fun p c => p c = true) pat_orcamentario mo /\
       match_numero r' = true) \/ match_numero r = true).
  { destruct (eat pat_orcamentario r) as [r'|] eqn:Ho; [|now right].
    apply orb_prop in H as [H|H]; [|now right].
    left. destruct (eat_split _ _ _ Ho) as [mo [-> Hmo]]. now exists mo, r'. }
  destruct Hcase as [[mo [r' [-> [Hmo Hm]]]]|Hm].
  - destruct (match_numero_split r' Hm) as [w [n [o [rest [-> [Hne [Hw [Hn Ho]]]]]]]].
    pose proof (matched_no_lf _ _ pat_orcamentario_no_lf Hmo) as Hno_o.
    exists (md ++ mo ++ w ++ [n; o]), rest.
    split; [now rewrite <- !app_assoc|]. split.
    + unfold cabecalho. rewrite (eat_exact _ _ _ Hmd), (eat_exact _ _ _ Hmo).
      apply orb_true_iff. left. now apply match_numero_word.
    + apply guarded_app_no_lf; [exact Hno_d|].
      apply guarded_app_no_lf; [exact Hno_o|].
      now apply guarded_numero.
  - destruct (match_numero_split r Hm) as [w [n [o [rest [-> [Hne [Hw [Hn Ho]]]]]]]].
    exists (md ++ w ++ [n; o]), rest.
    split; [now rewrite <- !app_assoc|]. split.
    + unfold cabecalho. rewrite (eat_exact _ _ _ Hmd).
      match goal with
      | |- context [eat pat_orcamentario ?x] => destruct (eat pat_orcamentario x)
      end.
      * apply orb_true_iff. right. now apply match_numero_word.
      * now apply match_numero_word.
    + apply guarded_app_no_lf; [exact Hno_d|]. now apply guarded_numero.
Qed.

Lemma re_split_head : forall t p ps,
  re_split t = p :: ps ->
  (ps = [] /\ t = p) \/ (exists u, t = p ++ 10 :: u /\ cabecalho u = true).
Proof.
  induction t as [|c t IH]; intros p ps H.
  - simpl in H. injection H as <- <-. now left.
  - simpl in H. destruct ((c =? 10) && cabecalho t) eqn:Hsep.
    + injection H as <- <-. apply andb_prop in Hsep as [Hc Hh].
      apply N.eqb_eq in Hc. subst c. right. now exists t.
    + pose proof (re_split_nonempty t) as Hne.
      destruct (re_split t) as [|p' ps'] eqn:Hr; [contradiction|].
      injection H as <- <-.
      destruct (IH p' ps' eq_refl) as [[-> ->]|[u [-> Hu]]].
      * now left.
      * right. now exists u.
Qed.

(** The first fragment of a text that starts with a header starts with
    that header. *)
Lemma re_split_head_cabecalho : forall t p ps,
  cabecalho t = true -> re_split t = p :: ps -> cabecalho p = true.
Proof.
  intros t p ps Hc Hr.
  destruct (cabecalho_word t Hc) as [h [rest [Ht [Hh Hg]]]].
  destruct (re_split_head t p ps Hr) as [[_ Hp]|[u [Hp Hu]]].
  - now subst p.
  - rewrite Ht in Hp. apply app_eq_app in Hp as [l [[Hh' Hl]|[Hp' Hl]]].
    + destruct l as [|x l].
      * rewrite app_nil_r in Hh'. now subst p.
      * simpl in Hl. injection Hl as Hx Hu'. subst x u.
        destruct (Hg p l Hh') as [y [h3 [-> Hy]]].
        simpl in Hu. rewrite (cabecalho_first y _ Hy) in Hu. discriminate.
    + subst p. now apply cabecalho_app.
Qed.

(** X15: every fragment of the split but the first starts with a decree
    header: "DECRETO", optionally " Orçamentário", white space, "N" and º
    or °, in any case. *)
Theorem re_split_fragments_start_with_header : forall texto,
  Forall (fun f => cabecalho f = true) (tl (re_split texto)).
Proof.
  induction texto as [|c t IH]; [constructor|].
  simpl. destruct ((c =? 10) && cabecalho t) eqn:Hsep.
  - apply andb_prop in Hsep as [_ Hh]. simpl.
    pose proof (re_split_nonempty t) as Hne.
    destruct (re_split t) as [|p ps] eqn:Hr; [contradiction|].
    constructor; [now apply (re_split_head_cabecalho t p ps)|exact IH].
  - pose proof (re_split_nonempty t) as Hne.
    destruct (re_split t) as [|p ps] eqn:Hr; [contradiction|exact IH].
Qed.

(** * Further properties of the monetary formatter *)

(** The digits of a decimal numeral, most significant first. *)
Fixpoint uint_digits (u : Decimal.uint) : list N :=
  match u with
  | Decimal.Nil => []
  | Decimal.D0 r => 0 :: uint_digits r
  | Decimal.D1 r => 1 :: uint_digits r
  | Decimal.D2 r => 2 :: uint_digits r
  | Decimal.D3 r => 3 :: uint_digits r
  | Decimal.D4 r => 4 :: uint_digits r
  | Decimal.D5 r => 5 :: uint_digits r
  | Decimal.D6 r => 6 :: uint_digits r
  | Decimal.D7 r => 7 :: uint_digits r
  | Decimal.D8 r => 8 :: uint_digits r
  | Decimal.D9 r => 9 :: uint_digits r
  end.

Definition ascii_digit (c : char) : bool := (48 <=? c) && (c <=? 57).

Lemma uint_chars_ascii : forall u,
  Forall (fun c => ascii_digit c = true) (uint_chars u).
Proof. induction u; simpl; constructor; auto. Qed.

Lemma fold_digits_uint : forall u acc,
  List.fold_left (fun a v => a * 10 + v) (uint_digits u) acc
  = DecimalPos.Unsigned.of_lu (Decimal.rev u)
    + acc * 10 ^ DecimalPos.Unsigned.usize u.
Proof.
  induction u; intros acc; simpl DecimalPos.Unsigned.usize;
    [simpl; lia|..];
    simpl uint_digits; simpl List.fold_left; rewrite IHu;
    unfold Decimal.rev at 2; simpl Decimal.revapp;
    rewrite DecimalPos.Unsigned.of_lu_revapp;
    simpl DecimalPos.Unsigned.of_lu; rewrite N.pow_succ_r';
    try apply N.le_0_l; ring.
Qed.

(** Reading the digits of [n] gives [n] back. *)
Lemma digits_to_N_to_uint : forall n,
  digits_to_N (uint_digits (N.to_uint n)) = n.
Proof.
  intros n. unfold digits_to_N. rewrite fold_digits_uint.
  rewrite N.mul_0_l, N.add_0_r.
  rewrite <- DecimalPos.Unsigned.of_uint_alt.
  apply DecimalN.Unsigned.of_to.
Qed.

Lemma to_uint_nonnil : forall n, N.to_uint n <> Decimal.Nil.
Proof.
  intros [|p]; [discriminate|]. apply DecimalPos.Unsigned.to_uint_nonnil.
Qed.

(** The three [replace] calls that turn the English format into the
    Brazilian one. *)
Definition swap_brl (s : str) : str :=
  replace (lit "X") (lit ".") (replace (lit ".") (lit ",") (replace (lit ",") (lit "X") s)).

Lemma uint_digits_nil : forall u, uint_digits u = [] -> u = Decimal.Nil.
Proof. destruct u; simpl; intros H; try discriminate; reflexivity. Qed.

Lemma quantize2_integer : forall n, quantize2 (MkDecimal n 0) = n * 100.
Proof. intros n. reflexivity. Qed.

Lemma quantize2_cents : forall c, quantize2 (MkDecimal c 2) = c.
Proof. intros c. unfold quantize2. simpl. apply N.mul_1_r. Qed.

Section FormatterMore.

Variable nd_extra : char -> option N.
Variable repr_container : json -> str.

Lemma digit_value_ascii : forall c,
  ascii_digit c = true -> digit_value nd_extra c = Some (c - 48).
Proof. intros c H. unfold digit_value. unfold ascii_digit in H. now rewrite H. Qed.

Lemma is_digit_ascii : forall c,
  ascii_digit c = true -> is_digit nd_extra c = true.
Proof. intros c H. unfold is_digit. now rewrite (digit_value_ascii c H). Qed.

Lemma take_digits_uint : forall u rest,
  take_digits nd_extra (uint_chars u ++ rest)
  = (uint_digits u ++ fst (take_digits nd_extra rest),
     snd (take_digits nd_extra rest)).
Proof.
  induction u; intros rest; simpl;
    [now destruct (take_digits nd_extra rest)|..];
    rewrite IHu; reflexivity.
Qed.

Lemma take_digits_point : forall rest,
  take_digits nd_extra (46 :: rest) = ([], 46 :: rest).
Proof. reflexivity. Qed.

Lemma strip_non_numeric_ascii : forall s,
  Forall (fun c => ascii_digit c = true) s ->
  strip_non_numeric nd_extra s = s.
Proof.
  induction s as [|c s IH]; intros H; [reflexivity|].
  inversion H as [|? ? Hc Hs]; subst. unfold strip_non_numeric in *. simpl.
  rewrite (is_digit_ascii c Hc). simpl. now rewrite IH.
Qed.

Lemma comma_to_point_ascii : forall s,
  Forall (fun c => ascii_digit c = true) s ->
  replace (lit ",") (lit ".") s = s.
Proof.
  intros s H. change (lit ",") with [44]. change (lit ".") with [46].
  rewrite replace_single. induction H as [|c s Hc Hs IH]; [reflexivity|].
  cbn [List.map]. f_equal; [|exact IH]. unfold char_eqb.
  destruct (N.eqb_spec 44 c) as [He|_]; [|reflexivity].
  subst c. discriminate.
Qed.

(** [Decimal] of the decimal writing of [n] is [n]. *)
Lemma Decimal_of_str_N : forall n,
  Decimal_of_str nd_extra (str_of_N n) = Ok (MkDecimal n 0).
Proof.
  intros n. unfold Decimal_of_str, str_of_N.
  rewrite <- (app_nil_r (uint_chars (N.to_uint n))), take_digits_uint.
  simpl. rewrite app_nil_r.
  destruct (uint_digits (N.to_uint n)) as [|d ds] eqn:Hd.
  - apply uint_digits_nil in Hd. now apply to_uint_nonnil in Hd.
  - rewrite <- Hd. now rewrite digits_to_N_to_uint.
Qed.

Lemma format_integer : forall n,
  format_comma_2f (MkDecimal n 0) = group3 (str_of_N n) ++ lit ".00".
Proof.
  intros n. unfold format_comma_2f. rewrite quantize2_integer.
  rewrite N.div_mul by discriminate. rewrite N.Div0.mod_mul. reflexivity.
Qed.

Lemma clean_int : forall z,
  replace (lit ",") (lit ".") (strip_non_numeric nd_extra (str_of_Z z))
  = str_of_N (Z.abs_N z).
Proof.
  intros z.
  assert (H : forall n, replace (lit ",") (lit ".")
                          (strip_non_numeric nd_extra (str_of_N n)) = str_of_N n).
  { intros n. rewrite strip_non_numeric_ascii by apply uint_chars_ascii.
    apply comma_to_point_ascii, uint_chars_ascii. }
  destruct z as [|p|p]; simpl.
  - reflexivity.
  - apply (H (Npos p)).
  - apply (H (Npos p)).
Qed.

(** X16: an integer amount is always formatted, never returned as it
    came: the result is the decimal writing of its absolute value, with a
    dot before every group of three digits, followed by ",00". The sign
    of a negative amount is lost. *)
Theorem formatar_valor_brl_int : forall z,
  formatar_valor_brl nd_extra repr_container (JInt z)
  = Ok (JStr (swap_brl (group3 (str_of_N (Z.abs_N z)) ++ lit ".00"))).
Proof.
  intros z. unfold formatar_valor_brl, formatar_try.
  change (py_str repr_container (JInt z)) with (str_of_Z z).
  rewrite clean_int, Decimal_of_str_N. simpl bind.
  rewrite format_integer. reflexivity.
Qed.

End FormatterMore.

(** One character through the three [replace] calls. *)
Definition swap_char (c : char) : char :=
  let c1 := if char_eqb 44 c then 88 else c in
  let c2 := if char_eqb 46 c1 then 44 else c1 in
  if char_eqb 88 c2 then 46 else c2.

Lemma swap_brl_map : forall s, swap_brl s = List.map swap_char s.
Proof.
  intros s. unfold swap_brl.
  change (lit ",") with [44]. change (lit ".") with [46]. change (lit "X") with [88].
  rewrite !replace_single, !map_map. reflexivity.
Qed.

Lemma swap_char_digit : forall c, ascii_digit c = true -> swap_char c = c.
Proof.
  intros c H. unfold ascii_digit in H. apply andb_prop in H as [H1 H2].
  apply N.leb_le in H1, H2. unfold swap_char, char_eqb.
  destruct (N.eqb_spec 44 c); [lia|].
  destruct (N.eqb_spec 46 c); [lia|].
  destruct (N.eqb_spec 88 c); [lia|]. reflexivity.
Qed.

Lemma two_digits_spec : forall f,
  f < 100 -> two_digits f = [48 + f / 10; 48 + f mod 10].
Proof.
  intros f Hf.
  assert (Hall : List.forallb
            (fun k => str_eqb (two_digits k) [48 + k / 10; 48 + k mod 10])
            (List.map N.of_nat (seq 0 100)) = true) by (vm_compute; reflexivity).
  rewrite forallb_forall in Hall. apply str_eqb_eq, Hall.
  apply in_map_iff. exists (N.to_nat f). split; [apply N2Nat.id|].
  apply in_seq. lia.
Qed.

Section FormatterFixpoint.

Variable nd_extra : char -> option N.
Variable repr_container : json -> str.

(** [valor_limpo] as a function of the text. *)
Definition clean (s : str) : str :=
  replace (lit ",") (lit ".") (strip_non_numeric nd_extra s).

Lemma clean_map : forall s,
  clean s = List.map (fun c => if char_eqb 44 c then 46 else c)
              (List.filter (fun c => is_digit nd_extra c || (c =? 44)) s).
Proof.
  intros s. unfold clean. change (lit ",") with [44]. change (lit ".") with [46].
  now rewrite replace_single.
Qed.

Lemma clean_swap_cons : forall c x,
  clean (swap_brl (c :: x)) = clean (swap_brl [c]) ++ clean (swap_brl x).
Proof.
  intros c x. rewrite !clean_map, !swap_brl_map.
  change (List.map swap_char (c :: x)) with ([swap_char c] ++ List.map swap_char x).
  now rewrite filter_app, map_app.
Qed.

Lemma clean_swap_app : forall a b,
  clean (swap_brl (a ++ b)) = clean (swap_brl a) ++ clean (swap_brl b).
Proof.
  induction a as [|c a IH]; intros b; [reflexivity|].
  rewrite <- app_comm_cons, clean_swap_cons, IH, (clean_swap_cons c a).
  now rewrite app_assoc.
Qed.

Lemma clean_swap_digit : forall c,
  ascii_digit c = true -> clean (swap_brl [c]) = [c].
Proof.
  intros c H. rewrite clean_map, swap_brl_map.
  change (List.map swap_char [c]) with [swap_char c].
  rewrite (swap_char_digit c H). cbn [List.filter].
  rewrite (is_digit_ascii nd_extra c H). cbn [orb List.map].
  unfold ascii_digit in H. apply andb_prop in H as [H1 _].
  apply N.leb_le in H1. unfold char_eqb.
  destruct (N.eqb_spec 44 c) as [He|Hne]; [lia|reflexivity].
Qed.

Lemma clean_swap_digits : forall x,
  Forall (fun c => ascii_digit c = true) x -> clean (swap_brl x) = x.
Proof.
  induction x as [|c x IH]; intros H; [reflexivity|].
  inversion H as [|? ? Hc Hx]; subst.
  rewrite clean_swap_cons, (clean_swap_digit c Hc), (IH Hx). reflexivity.
Qed.

(** The separators [group3] puts in are dropped again by the cleaning. *)
Lemma clean_swap_group3 : forall ds,
  Forall (fun c => ascii_digit c = true) ds ->
  clean (swap_brl (group3 ds)) = ds.
Proof.
  induction ds as [|c t IH]; intros H; [reflexivity|].
  inversion H as [|? ? Hc Ht]; subst. cbn [group3].
  destruct (Nat.eqb (List.length t) 0) eqn:H0.
  - apply Nat.eqb_eq in H0. destruct t; [|discriminate].
    now apply clean_swap_digit.
  - destruct (Nat.eqb (Nat.modulo (List.length t) 3) 0).
    + rewrite clean_swap_cons, (clean_swap_digit c Hc).
      rewrite (clean_swap_cons 44). rewrite (IH Ht). reflexivity.
    + rewrite clean_swap_cons, (clean_swap_digit c Hc), (IH Ht). reflexivity.
Qed.

Lemma ascii_digit_plus : forall a, a < 10 -> ascii_digit (48 + a) = true.
Proof.
  intros a H. unfold ascii_digit. apply andb_true_intro.
  split; apply N.leb_le; lia.
Qed.

Lemma two_digits_ascii : forall f,
  f < 100 -> Forall (fun c => ascii_digit c = true) (two_digits f).
Proof.
  intros f Hf. rewrite (two_digits_spec f Hf).
  constructor; [|constructor; [|constructor]]; apply ascii_digit_plus.
  - apply N.Div0.div_lt_upper_bound. lia.
  - apply N.mod_lt. discriminate.
Qed.

Lemma take_digits_two : forall a b,
  a < 10 -> b < 10 ->
  take_digits nd_extra [48 + a; 48 + b] = ([a; b], []).
Proof.
  intros a b Ha Hb. cbn [take_digits].
  rewrite (digit_value_ascii nd_extra _ (ascii_digit_plus a Ha)).
  rewrite (digit_value_ascii nd_extra _ (ascii_digit_plus b Hb)).
  replace (48 + a - 48) with a by lia. replace (48 + b - 48) with b by lia.
  reflexivity.
Qed.

(** Reading back what [format_comma_2f] wrote for [c] hundredths. *)
Lemma Decimal_of_str_cents : forall c,
  Decimal_of_str nd_extra
    (str_of_N (c / 100) ++ [46] ++ two_digits (c mod 100))
  = Ok (MkDecimal c 2).
Proof.
  intros c. assert (Hf : c mod 100 < 100) by (apply N.mod_lt; discriminate).
  rewrite (two_digits_spec _ Hf).
  set (a := (c mod 100) / 10). set (b := (c mod 100) mod 10).
  assert (Ha : a < 10) by (apply N.Div0.div_lt_upper_bound; lia).
  assert (Hb : b < 10) by (apply N.mod_lt; discriminate).
  unfold Decimal_of_str, str_of_N. rewrite take_digits_uint.
  change ([46] ++ [48 + a; 48 + b]) with (46 :: [48 + a; 48 + b]).
  rewrite take_digits_point. cbn [fst snd]. rewrite app_nil_r.
  rewrite N.eqb_refl. rewrite (take_digits_two a b Ha Hb).
  assert (Hv : digits_to_N (uint_digits (N.to_uint (c / 100)) ++ [a; b]) = c).
  { unfold digits_to_N. rewrite fold_left_app.
    fold (digits_to_N (uint_digits (N.to_uint (c / 100)))).
    rewrite digits_to_N_to_uint. simpl.
    pose proof (N.div_mod c 100). pose proof (N.div_mod (c mod 100) 10).
    subst a b. lia. }
  rewrite Hv. destruct (uint_digits (N.to_uint (c / 100))); reflexivity.
Qed.

Lemma str_of_N_ascii : forall n,
  Forall (fun c => ascii_digit c = true) (str_of_N n).
Proof. intros n. apply uint_chars_ascii. Qed.

(** What the formatter writes, it reads as itself. *)
Lemma formatar_try_fixpoint : forall d,
  formatar_try nd_extra repr_container (JStr (swap_brl (format_comma_2f d)))
  = Ok (JStr (swap_brl (format_comma_2f d))).
Proof.
  intros d. unfold formatar_try.
  change (py_str repr_container (JStr ?s)) with s.
  fold (clean (swap_brl (format_comma_2f d))).
  unfold format_comma_2f at 1.
  assert (Hf : quantize2 d mod 100 < 100) by (apply N.mod_lt; discriminate).
  rewrite !clean_swap_app.
  rewrite (clean_swap_group3 _ (str_of_N_ascii _)).
  rewrite (clean_swap_digits _ (two_digits_ascii _ Hf)).
  change (clean (swap_brl [46])) with [46].
  rewrite Decimal_of_str_cents. simpl bind.
  do 2 f_equal. fold (swap_brl (format_comma_2f (MkDecimal (quantize2 d) 2))).
  unfold format_comma_2f. now rewrite quantize2_cents.
Qed.

Lemma formatar_try_ok_shape : forall v r,
  formatar_try nd_extra repr_container v = Ok r ->
  exists d, r = JStr (swap_brl (format_comma_2f d)).
Proof.
  intros v r H. unfold formatar_try, bind in H.
  destruct (Decimal_of_str nd_extra _) as [d|]; [|discriminate].
  injection H as <-. now exists d.
Qed.

(** X17: formatting is idempotent: whatever the formatter returns (a
    formatted amount, or its argument when that does not parse), it
    returns unchanged when given it again. *)
Theorem formatar_valor_brl_idempotent : forall v,
  exists r,
    formatar_valor_brl nd_extra repr_container v = Ok r /\
    formatar_valor_brl nd_extra repr_container r = Ok r.
Proof.
  intros v.
  destruct (formatar_try nd_extra repr_container v) as [r|e] eqn:Ht.
  - exists r. split.
    + unfold formatar_valor_brl. now rewrite Ht.
    + destruct (formatar_try_ok_shape v r Ht) as [d ->].
      unfold formatar_valor_brl. now rewrite formatar_try_fixpoint.
  - pose proof (formatar_try_raises nd_extra repr_container v e Ht) as He.
    subst e. exists v.
    split; unfold formatar_valor_brl; now rewrite Ht.
Qed.

End FormatterFixpoint.

Section FormatterFallback.

Variable nd_extra : char -> option N.
Variable repr_container : json -> str.

Definition has_digit (s : str) : bool := List.existsb (is_digit nd_extra) s.
Definition n_commas (s : str) : nat := count_occ N.eq_dec s 44.
Definition n_points (s : str) : nat := count_occ N.eq_dec s 46.

(** The test the parse amounts to: a digit somewhere, one point at most. *)
Definition parses (x : str) : bool := has_digit x && Nat.leb (n_points x) 1.

Lemma is_digit_44 : is_digit nd_extra 44 = false.
Proof. reflexivity. Qed.

Lemma is_digit_46 : is_digit nd_extra 46 = false.
Proof. reflexivity. Qed.

Lemma take_digits_spec : forall x ds r,
  take_digits nd_extra x = (ds, r) ->
  exists pre,
    x = pre ++ r /\
    Forall (fun c => is_digit nd_extra c = true) pre /\
    (ds = [] <-> pre = []) /\
    match r with [] => True | c :: _ => is_digit nd_extra c = false end.
Proof.
  induction x as [|c t IH]; intros ds r H; simpl in H.
  - injection H as <- <-. exists []. repeat split; auto.
  - destruct (digit_value nd_extra c) as [v|] eqn:Hv.
    + destruct (take_digits nd_extra t) as [ds' r'] eqn:Ht.
      injection H as <- <-. destruct (IH ds' r' eq_refl) as [pre [Hx [Hp [_ Hr]]]].
      exists (c :: pre). split; [simpl; now rewrite Hx at 1|].
      split; [constructor; [unfold is_digit; now rewrite Hv|exact Hp]|].
      split; [split; discriminate|exact Hr].
    + injection H as <- <-. exists []. split; [reflexivity|].
      split; [constructor|]. split; [tauto|].
      unfold is_digit. now rewrite Hv.
Qed.

Lemma digits_no_point : forall pre,
  Forall (fun c => is_digit nd_extra c = true) pre -> n_points pre = 0%nat.
Proof.
  intros pre H. unfold n_points. apply count_occ_not_In. intros Hin.
  rewrite Forall_forall in H. apply H in Hin. rewrite is_digit_46 in Hin.
  discriminate.
Qed.

Lemma digits_has_digit : forall pre,
  Forall (fun c => is_digit nd_extra c = true) pre ->
  has_digit pre = match pre with [] => false | _ :: _ => true end.
Proof.
  intros pre H. destruct H as [|c pre Hc Hp]; [reflexivity|].
  unfold has_digit. simpl. now rewrite Hc.
Qed.

Lemma parses_app_point : forall pre r,
  Forall (fun c => is_digit nd_extra c = true) pre ->
  parses (pre ++ 46 :: r)
  = (match pre with [] => has_digit r | _ :: _ => true end)
    && Nat.eqb (n_points r) 0.
Proof.
  intros pre r H.
  assert (Hd : has_digit (pre ++ 46 :: r) = has_digit pre || has_digit r).
  { unfold has_digit. rewrite existsb_app. cbn [List.existsb].
    now rewrite is_digit_46. }
  assert (Hn : n_points (pre ++ 46 :: r) = (n_points pre + S (n_points r))%nat).
  { unfold n_points. rewrite count_occ_app.
    now rewrite count_occ_cons_eq by reflexivity. }
  unfold parses. rewrite Hd, Hn.
  rewrite (digits_no_point pre H), (digits_has_digit pre H).
  cbn [Nat.add]. destruct pre; cbn [orb]; f_equal;
    destruct (n_points r); reflexivity.
Qed.

Definition accepted (x : str) : bool :=
  match Decimal_of_str nd_extra x with
  | Ok _ => true
  | Raise _ => false
  end.

(** [Decimal] accepts a text of digits and points exactly when the text
    has a digit and at most one point. *)
Lemma Decimal_of_str_parses : forall x,
  Forall (fun c => is_digit nd_extra c = true \/ c = 46) x ->
  accepted x = parses x.
Proof.
  intros x Hx. unfold accepted, Decimal_of_str.
  destruct (take_digits nd_extra x) as [ip r] eqn:Ht.
  destruct (take_digits_spec x ip r Ht) as [pre [-> [Hp [Hnil Hr]]]].
  destruct r as [|c r'].
  - rewrite app_nil_r. unfold parses.
    rewrite (digits_no_point pre Hp), (digits_has_digit pre Hp).
    destruct ip as [|d ip].
    + now rewrite (proj1 Hnil eq_refl).
    + destruct pre; [|reflexivity].
      assert (Habs : d :: ip = []) by now apply Hnil. discriminate.
  - assert (Hc : c = 46).
    { rewrite Forall_forall in Hx. destruct (Hx c) as [Hd|Hd];
        [apply in_or_app; right; now left|congruence|exact Hd]. }
    subst c. rewrite N.eqb_refl.
    etransitivity; [|symmetry; apply (parses_app_point pre r' Hp)].
    assert (Hx' : Forall (fun c => is_digit nd_extra c = true \/ c = 46) r').
    { apply Forall_app in Hx as [_ Hx]. now inversion Hx. }
    destruct (take_digits nd_extra r') as [fp r''] eqn:Ht'.
    destruct (take_digits_spec r' fp r'' Ht') as [pre' [-> [Hp' [Hnil' Hr']]]].
    destruct r'' as [|c' r3].
    + rewrite app_nil_r.
      rewrite (digits_no_point pre' Hp'), (digits_has_digit pre' Hp').
      destruct ip as [|d ip].
      * rewrite (proj1 Hnil eq_refl). destruct fp as [|e fp].
        -- now rewrite (proj1 Hnil' eq_refl).
        -- destruct pre'; [|reflexivity].
           assert (Habs : e :: fp = []) by now apply Hnil'. discriminate.
      * destruct pre; [|reflexivity].
        assert (Habs : d :: ip = []) by now apply Hnil. discriminate.
    + assert (Hc' : c' = 46).
      { rewrite Forall_forall in Hx'. destruct (Hx' c') as [Hd|Hd];
          [apply in_or_app; right; now left|congruence|exact Hd]. }
      subst c'. unfold n_points. rewrite count_occ_app.
      rewrite count_occ_cons_eq by reflexivity.
      rewrite Nat.add_succ_r. cbn [Nat.eqb]. now rewrite andb_false_r.
Qed.

Lemma clean_counts : forall s,
  has_digit (clean nd_extra s) = has_digit s /\
  n_points (clean nd_extra s) = n_commas s.
Proof.
  intros s. rewrite clean_map. unfold has_digit, n_points, n_commas.
  induction s as [|c s [IH1 IH2]]; [split; reflexivity|].
  cbn [List.filter List.existsb].
  destruct (is_digit nd_extra c) eqn:Hd; cbn [orb].
  - assert (H44 : c <> 44) by (intros ->; now rewrite is_digit_44 in Hd).
    assert (H46 : c <> 46) by (intros ->; now rewrite is_digit_46 in Hd).
    cbn [List.map List.existsb]. unfold char_eqb.
    destruct (N.eqb_spec 44 c) as [He|_]; [congruence|].
    rewrite Hd. cbn [orb]. split; [reflexivity|].
    rewrite !count_occ_cons_neq by assumption. exact IH2.
  - destruct (N.eqb_spec c 44) as [->|Hne].
    + cbn [List.map List.existsb]. unfold char_eqb. rewrite N.eqb_refl.
      rewrite is_digit_46. cbn [orb]. split; [exact IH1|].
      rewrite !count_occ_cons_eq by reflexivity. f_equal. exact IH2.
    + split; [exact IH1|]. rewrite count_occ_cons_neq by assumption. exact IH2.
Qed.

(** X18: the formatter gives up, and returns its argument unchanged,
    exactly when the text of the argument has no digit or has more than
    one comma; with a digit and at most one comma it returns a formatted
    amount. Every other character (points, letters, signs, currency
    symbols) is ignored. *)
Theorem formatar_valor_brl_fallback_iff : forall v,
  (formatar_try nd_extra repr_container v = Raise InvalidOperation <->
     has_digit (py_str repr_container v) = false \/
     (2 <= n_commas (py_str repr_container v))%nat) /\
  (formatar_try nd_extra repr_container v = Raise InvalidOperation ->
     formatar_valor_brl nd_extra repr_container v = Ok v) /\
  (formatar_try nd_extra repr_container v <> Raise InvalidOperation ->
     exists d, formatar_valor_brl nd_extra repr_container v
               = Ok (JStr (swap_brl (format_comma_2f d)))).
Proof.
  intros v.
  pose proof (Decimal_of_str_parses _ (valor_limpo_alphabet nd_extra repr_container v))
    as Hp.
  fold (clean nd_extra (py_str repr_container v)) in Hp.
  destruct (clean_counts (py_str repr_container v)) as [Hd Hc].
  unfold parses, accepted in Hp. rewrite Hd, Hc in Hp.
  unfold formatar_valor_brl, formatar_try.
  fold (clean nd_extra (py_str repr_container v)).
  destruct (Decimal_of_str nd_extra (clean nd_extra (py_str repr_container v)))
    as [d|e] eqn:Hdec; simpl bind.
  - split; [|split].
    + split; [discriminate|]. symmetry in Hp.
      apply andb_prop in Hp as [H1 H2]. apply Nat.leb_le in H2.
      intros [H|H]; [congruence|lia].
    + discriminate.
    + intros _. now exists d.
  - apply Decimal_of_str_raises in Hdec. subst e. split; [|split].
    + split; [|reflexivity]. intros _. symmetry in Hp.
      apply andb_false_iff in Hp as [H|H]; [now left|].
      right. apply Nat.leb_gt in H. lia.
    + reflexivity.
    + intros H. now elim H.
Qed.

End FormatterFallback.

(** * The reply of the oracle, once cleaned *)

(** The number of back-quotes a text starts with. *)
Fixpoint lead (s : str) : nat :=
  match s with
  | c :: t => if c =? 96 then S (lead t) else O
  | [] => O
  end.

Definition fence : str := [96; 96; 96].

Lemma startswith_fence : forall s,
  startswith fence s = true -> exists t : str, s = (96 : char) :: 96 :: 96 :: t.
Proof.
  intros s H. apply startswith_iff in H as [t ->]. now exists t.
Qed.

Lemma startswith_fence_lead : forall s,
  startswith fence s = true <-> (3 <= lead s)%nat.
Proof.
  intros s. split.
  - intros H. destruct (startswith_fence s H) as [t ->]. simpl. lia.
  - intros H. destruct s as [|a [|b [|c t]]]; simpl in H; try lia;
      destruct (N.eqb_spec a 96); try lia; subst;
      try (destruct (N.eqb_spec b 96); try lia; subst);
      try (destruct (N.eqb_spec c 96); try lia; subst).
    reflexivity.
Qed.

Lemma replace_fence_skip : forall t,
  replace_from fence [] O (96 :: 96 :: 96 :: t) = replace_from fence [] O t.
Proof. intros t. reflexivity. Qed.

Lemma replace_fence_keep : forall c t,
  startswith fence (c :: t) = false ->
  replace_from fence [] O (c :: t) = c :: replace_from fence [] O t.
Proof. intros c t H. cbn [replace_from]. now rewrite H. Qed.

Lemma replace_fence_inv : forall n s,
  (List.length s <= n)%nat ->
  contains fence (replace_from fence [] O s) = false /\
  (lead (replace_from fence [] O s) <= lead s)%nat.
Proof.
  induction n as [|n IH]; intros s Hn.
  - destruct s; [|simpl in Hn; lia]. split; [reflexivity|apply Nat.le_refl].
  - destruct s as [|c t]; [split; [reflexivity|apply Nat.le_refl]|].
    destruct (startswith fence (c :: t)) eqn:Hs.
    + destruct (startswith_fence _ Hs) as [u Hu]. rewrite Hu.
      rewrite replace_fence_skip.
      assert (Hlen : (List.length u <= n)%nat).
      { rewrite Hu in Hn. simpl in Hn. lia. }
      destruct (IH u Hlen) as [H1 H2]. split; [exact H1|].
      simpl. lia.
    + rewrite (replace_fence_keep c t Hs).
      assert (Hlen : (List.length t <= n)%nat) by (simpl in Hn; lia).
      destruct (IH t Hlen) as [H1 H2]. split.
      * cbn [contains]. rewrite H1, orb_false_r.
        destruct (startswith fence (c :: replace_from fence [] O t)) eqn:Hs';
          [|reflexivity].
        apply startswith_fence_lead in Hs'.
        assert (Hc : (3 <= lead (c :: t))%nat).
        { cbn [lead] in Hs' |- *. destruct (c =? 96); lia. }
        apply startswith_fence_lead in Hc. congruence.
      * simpl. destruct (c =? 96); lia.
Qed.

(** Removing the fences leaves none behind. *)
Lemma replace_fence_clean : forall s,
  contains (lit "```") (replace (lit "```") [] s) = false.
Proof.
  intros s. change (lit "```") with fence.
  change (replace fence [] s) with (replace_from fence [] O s).
  apply (replace_fence_inv (List.length s) s). apply Nat.le_refl.
Qed.

(** X19: in [analisador_ver3.py] and [analisador_ver4.py] the text that
    [enviar_prompt_para_bloco] returns never holds a code fence (three
    back-quotes in a row), whatever the oracle replied. *)
Theorem enviar_prompt_para_bloco_no_fence : forall gemini b st r st',
  enviar_prompt_para_bloco gemini b st = (Some r, st') ->
  contains (lit "```") r = false.
Proof.
  intros gemini b st r st' H. unfold enviar_prompt_para_bloco in H.
  destruct (gemini b) as [text|]; [|discriminate].
  injection H as <- _. apply replace_fence_clean.
Qed.

Lemma enviar_prompt_para_bloco_no_fence_witness :
  exists r st',
    enviar_prompt_para_bloco (gemini_cercado (lit "decretos")) bloco_1
      estado_inicial = (Some r, st') /\
    contains (lit "```") r = false.
Proof.
  eexists _, _. split; [vm_compute; reflexivity|].
  eapply (enviar_prompt_para_bloco_no_fence
            (gemini_cercado (lit "decretos")) bloco_1 estado_inicial).
  vm_compute. reflexivity.
Defined.

(** * [analisador_ver2.py] *)

(** [ Nº] at the start of [s], under [re.IGNORECASE]: a space, the
    letter N in either case, the ordinal sign. *)
Definition match_numero_ver2 (s : str) : bool :=
  match eat [exactly 32; ci 110; exactly 186] s with
  | Some _ => true
  | None => false
  end.

(** The lookahead [(?=DECRETO(?: Orçamentário)? Nº)] of
    [analisador_ver2.py]. *)
Definition cabecalho_ver2 (s : str) : bool :=
  match eat pat_decreto s with
  | None => false
  | Some r =>
    match eat pat_orcamentario r with
    | Some r' => match_numero_ver2 r' || match_numero_ver2 r
    | None => match_numero_ver2 r
    end
  end.

(** [re.split] on a line feed followed by what [h] recognises. *)
Fixpoint re_split_by (h : str -> bool) (s : str) : list str :=
  match s with
  | [] => [[]]
  | c :: t =>
    if (c =? 10) && h t then [] :: re_split_by h t
    else match re_split_by h t with
         | p :: ps => (c :: p) :: ps
         | [] => [[c]]
         end
  end.

(** The blocks of [analisador_ver2.py]: the split, with no removal of a
    blank first block. *)
Definition blocos_ver2 (texto : str) : list str :=
  re_split_by cabecalho_ver2 texto.

(** An optional character of a pattern, as in [[jJ]?]. *)
Definition drop_opt (p : char -> bool) (s : str) : str :=
  match s with
  | c :: t => if p c then t else s
  | [] => []
  end.

(** [re.sub(r"^```[jJ]?[sS]?[oO]?[nN]?", "", s)]: without [re.MULTILINE]
    the pattern can match at the start only. *)
Definition sub_fence_prefix (s : str) : str :=
  match s with
  | 96 :: 96 :: 96 :: t =>
    drop_opt (ci 110) (drop_opt (ci 111) (drop_opt (ci 115) (drop_opt (ci 106) t)))
  | _ => s
  end.

(** [re.sub(r"```$", "", s)]: [$] matches at the end of the text and
    before a line feed that ends it. *)
Definition sub_fence_suffix (s : str) : str :=
  match rev s with
  | 96 :: 96 :: 96 :: t => rev t
  | 10 :: 96 :: 96 :: 96 :: t => rev (10 :: t)
  | _ => s
  end.

(** The three assignments to [json_text] in [enviar_prompt_para_bloco]
    of [analisador_ver2.py]. *)
Definition limpar_ver2 (text : str) : str :=
  strip (sub_fence_suffix (strip (sub_fence_prefix (strip text)))).



Section DriverVer2.

Variable gemini : str -> option str.
Variable json_loads : str -> option json.





End DriverVer2.

Lemma re_split_by_cabecalho : forall s, re_split_by cabecalho s = re_split s.
Proof.
  induction s as [|c t IH]; [reflexivity|]. simpl. now rewrite IH.
Qed.

Lemma re_split_by_nonempty : forall h s, re_split_by h s <> [].
Proof.
  intros h [|c t]; simpl; [discriminate|].
  destruct ((c =? 10) && h t); [discriminate|].
  destruct (re_split_by h t); discriminate.
Qed.

Lemma match_numero_ver2_sound : forall r,
  match_numero_ver2 r = true -> match_numero r = true.
Proof.
  intros r H. unfold match_numero_ver2 in H.
  destruct r as [|a [|n [|o rest]]]; simpl in H; try discriminate;
    try (destruct (exactly 32 a); [|discriminate];
         try (destruct (ci 110 n); discriminate); discriminate).
  destruct (exactly 32 a) eqn:Ha; [|discriminate].
  destruct (ci 110 n) eqn:Hn; [|discriminate].
  destruct (exactly 186 o) eqn:Ho; [|discriminate].
  unfold exactly in Ha, Ho. apply N.eqb_eq in Ha, Ho. subst a o.
  assert (Hns : isspace n = false).
  { apply ci_iff in Hn. destruct Hn as [-> | ->]; reflexivity. }
  simpl. rewrite Hns, Hn. reflexivity.
Qed.

Lemma cabecalho_ver2_sound : forall s,
  cabecalho_ver2 s = true -> cabecalho s = true.
Proof.
  intros s H. unfold cabecalho_ver2 in H. unfold cabecalho.
  destruct (eat pat_decreto s) as [r|]; [|discriminate].
  destruct (eat pat_orcamentario r) as [r'|].
  - apply orb_prop in H as [H|H]; apply match_numero_ver2_sound in H;
      rewrite H; [reflexivity|apply orb_true_r].
  - now apply match_numero_ver2_sound.
Qed.

Lemma re_split_by_length_mono : forall (h1 h2 : str -> bool),
  (forall s, h1 s = true -> h2 s = true) ->
  forall s, (List.length (re_split_by h1 s) <= List.length (re_split_by h2 s))%nat.
Proof.
  intros h1 h2 Hh. induction s as [|c t IH]; [apply Nat.le_refl|].
  simpl. pose proof (re_split_by_nonempty h1 t) as N1.
  pose proof (re_split_by_nonempty h2 t) as N2.
  destruct (c =? 10); simpl.
  - destruct (h1 t) eqn:H1.
    + rewrite (Hh t H1). simpl. lia.
    + destruct (h2 t); destruct (re_split_by h1 t), (re_split_by h2 t);
        simpl in *; try contradiction; lia.
  - destruct (re_split_by h1 t), (re_split_by h2 t);
      simpl in *; try contradiction; lia.
Qed.

(** X20: every place where [analisador_ver2.py] cuts the corpus (a line
    feed followed by "DECRETO", optionally " Orçamentário", one space and
    "Nº") is a place where [analisador_ver3.py] and [analisador_ver4.py]
    cut it, so that the older version never finds more blocks. *)
Theorem ver2_boundaries_are_ver3_boundaries :
  (forall c t, (c =? 10) && cabecalho_ver2 t = true ->
               (c =? 10) && cabecalho t = true) /\
  (forall texto,
     (List.length (blocos_ver2 texto) <= List.length (re_split texto))%nat).
Proof.
  split.
  - intros c t H. apply andb_prop in H as [Hc Hh]. rewrite Hc.
    now apply cabecalho_ver2_sound.
  - intros texto. unfold blocos_ver2. rewrite <- re_split_by_cabecalho.
    apply re_split_by_length_mono. exact cabecalho_ver2_sound.
Qed.

Lemma lstrip_length : forall s, (List.length (lstrip s) <= List.length s)%nat.
Proof.
  induction s as [|c t IH]; [apply Nat.le_refl|]. simpl.
  destruct (isspace c); simpl; lia.
Qed.

Lemma rstrip_length : forall s, (List.length (rstrip s) <= List.length s)%nat.
Proof.
  intros s. unfold rstrip. rewrite length_rev.
  pose proof (lstrip_length (rev s)) as H. now rewrite length_rev in H.
Qed.

Lemma lstrip_same_length : forall s,
  List.length (lstrip s) = List.length s -> lstrip s = s.
Proof.
  intros s H. destruct (lstrip_split s) as [ws [Hs _]].
  assert (Hl : List.length s = (List.length ws + List.length (lstrip s))%nat).
  { rewrite Hs at 1. apply length_app. }
  destruct ws; [exact (eq_sym Hs)|simpl in Hl; lia].
Qed.

(** A text that [strip] leaves alone has no white space at either end. *)
Lemma strip_fixed : forall p,
  strip p = p -> lstrip p = p /\ lstrip (rev p) = rev p.
Proof.
  intros p H.
  assert (Hl : lstrip p = p).
  { apply lstrip_same_length. apply Nat.le_antisymm; [apply lstrip_length|].
    rewrite <- H at 1. apply rstrip_length. }
  split; [exact Hl|].
  unfold strip in H. rewrite Hl in H. unfold rstrip in H.
  apply (f_equal (@rev char)) in H. now rewrite rev_involutive in H.
Qed.

Lemma lstrip_head : forall c t, lstrip (c :: t) = c :: t -> isspace c = false.
Proof.
  intros c t H. simpl in H. destruct (isspace c) eqn:Hc; [|reflexivity].
  pose proof (lstrip_length t) as Hl. rewrite H in Hl. simpl in Hl. lia.
Qed.

Lemma lstrip_app_fixed : forall p y,
  p <> [] -> lstrip p = p -> lstrip (p ++ y) = p ++ y.
Proof.
  intros [|c t] y Hne H; [contradiction|].
  simpl. now rewrite (lstrip_head c t H).
Qed.

Lemma lstrip_nonspace : forall c x,
  isspace c = false -> lstrip (c :: x) = c :: x.
Proof. intros c x H. simpl. now rewrite H. Qed.

Lemma rstrip_app_nonspace : forall x c,
  isspace c = false -> rstrip (x ++ [c]) = x ++ [c].
Proof.
  intros x c H. unfold rstrip. rewrite rev_app_distr.
  change (rev [c] ++ rev x) with (c :: rev x).
  rewrite (lstrip_nonspace c (rev x) H).
  change (c :: rev x) with (rev [c] ++ rev x).
  rewrite <- rev_app_distr. apply rev_involutive.
Qed.

Lemma rstrip_app_space : forall x c,
  isspace c = true -> rstrip (x ++ [c]) = rstrip x.
Proof.
  intros x c H. unfold rstrip. rewrite rev_app_distr.
  change (rev [c] ++ rev x) with (c :: rev x). simpl. now rewrite H.
Qed.

Lemma rstrip_fence : forall x, rstrip (x ++ fence) = x ++ fence.
Proof.
  intros x. replace (x ++ fence) with ((x ++ [96; 96]) ++ [96])
    by (rewrite <- app_assoc; reflexivity).
  apply (rstrip_app_nonspace _ 96 eq_refl).
Qed.

Lemma sub_fence_suffix_fenced : forall x,
  sub_fence_suffix (x ++ fence) = x.
Proof.
  intros x. unfold sub_fence_suffix. rewrite rev_app_distr.
  change (rev fence ++ rev x) with (96 :: 96 :: 96 :: rev x).
  apply rev_involutive.
Qed.

(** The last two steps of the cleaning, on a payload followed by a line
    feed and a fence. *)
Lemma limpar_ver2_tail : forall p,
  strip p = p ->
  strip (sub_fence_suffix (strip (10 :: p ++ 10 :: fence))) = p.
Proof.
  intros p Hp. destruct (strip_fixed p Hp) as [Hl Hr].
  destruct p as [|c t]; [reflexivity|].
  pose proof (lstrip_head c t Hl) as Hc.
  assert (H1 : strip (10 :: (c :: t) ++ 10 :: fence)
               = ((c :: t) ++ [10]) ++ fence).
  { unfold strip.
    change (lstrip (10 :: (c :: t) ++ 10 :: fence))
      with (lstrip (c :: t ++ 10 :: fence)).
    rewrite (lstrip_nonspace c _ Hc).
    replace (c :: t ++ 10 :: fence) with (((c :: t) ++ [10]) ++ fence)
      by (rewrite <- app_assoc; reflexivity).
    apply rstrip_fence. }
  rewrite H1, sub_fence_suffix_fenced. unfold strip.
  change (lstrip ((c :: t) ++ [10])) with (lstrip (c :: t ++ [10])).
  rewrite (lstrip_nonspace c _ Hc).
  change (c :: t ++ [10]) with ((c :: t) ++ [10]).
  rewrite (rstrip_app_space _ 10 eq_refl). unfold rstrip. rewrite Hr.
  apply rev_involutive.
Qed.

Lemma strip_fenced : forall a x,
  isspace a = false -> strip (a :: x ++ fence) = a :: x ++ fence.
Proof.
  intros a x Ha. unfold strip. rewrite (lstrip_nonspace a _ Ha).
  apply (rstrip_fence (a :: x)).
Qed.

(** The reply with its fence, and the text between the two steps of
    the cleaning. *)
Definition cercado_json (p : str) : str :=
  96 :: ([96; 96; 106; 115; 111; 110; 10] ++ p ++ [10]) ++ fence.
Definition cercado_nu (p : str) : str :=
  96 :: ([96; 96; 10] ++ p ++ [10]) ++ fence.
Definition cauda (p : str) : str := 10 :: p ++ 10 :: fence.

Lemma strip_cercado_json : forall p, strip (cercado_json p) = cercado_json p.
Proof. intros p. apply (strip_fenced 96 _ eq_refl). Qed.

Lemma strip_cercado_nu : forall p, strip (cercado_nu p) = cercado_nu p.
Proof. intros p. apply (strip_fenced 96 _ eq_refl). Qed.

Lemma sub_fence_prefix_json : forall p,
  sub_fence_prefix (cercado_json p) = cauda p.
Proof.
  intros p. unfold cercado_json, cauda. simpl. now rewrite <- app_assoc.
Qed.

Lemma sub_fence_prefix_nu : forall p,
  sub_fence_prefix (cercado_nu p) = cauda p.
Proof.
  intros p. unfold cercado_nu, cauda. simpl. now rewrite <- app_assoc.
Qed.

Lemma limpar_ver2_cauda : forall p,
  strip p = p -> strip (sub_fence_suffix (strip (cauda p))) = p.
Proof. intros p Hp. now apply limpar_ver2_tail. Qed.

(** X21: the cleaning of [analisador_ver2.py] takes a payload out of
    its fence: for a payload with no white space at its ends, the reply
    made of "```json", a line feed, the payload, a line feed and "```"
    is cleaned to the payload, and so is the same reply with a bare
    "```" in front. *)
Theorem limpar_ver2_unfences : forall p,
  strip p = p ->
  limpar_ver2 (lit "```json" ++ [10] ++ p ++ [10] ++ lit "```") = p /\
  limpar_ver2 (lit "```" ++ [10] ++ p ++ [10] ++ lit "```") = p.
Proof.
  intros p Hp. split.
  - replace (lit "```json" ++ [10] ++ p ++ [10] ++ lit "```")
      with (cercado_json p)
      by (unfold cercado_json; change (lit "```") with fence; simpl;
          now rewrite <- app_assoc).
    unfold limpar_ver2.
    rewrite strip_cercado_json, sub_fence_prefix_json.
    now apply limpar_ver2_cauda.
  - replace (lit "```" ++ [10] ++ p ++ [10] ++ lit "```")
      with (cercado_nu p)
      by (unfold cercado_nu; change (lit "```") with fence; simpl;
          now rewrite <- app_assoc).
    unfold limpar_ver2.
    rewrite strip_cercado_nu, sub_fence_prefix_nu.
    now apply limpar_ver2_cauda.
Qed.


Section LoopVer2Facts.

Variable gemini : str -> option str.
Variable json_loads : str -> option json.



End LoopVer2Facts.

(** * [analisador.py], the first version *)

(** How the main block of [analisador.py] ends, up to the point where it
    hands the records to [pandas]. *)
Inductive saida_v1 : Type :=
  | FalhaOraculo            (* [enviar_prompt] raised: nothing catches it *)
  | Saiu (codigo : nat)     (* [exit(1)] *)
  | Levantou (e : exn)
  | Decretos (v : json).    (* [todos_decretos] *)

Section DriverV1.

Variable gemini : str -> option str.
Variable json_loads : str -> option json.

(** [enviar_prompt]: the reply with the fences removed; no [try]. *)
Definition enviar_prompt (texto : str) : option str :=
  match gemini texto with
  | Some text =>
    Some (replace (lit "```") [] (replace (lit "```json") [] (strip text)))
  | None => None
  end.

(** [parse_json]: [None] for a text that is not JSON, and also for the
    JSON text [null]. *)
Definition parse_json (json_text : str) : json :=
  match json_loads json_text with
  | Some v => v
  | None => JNull
  end.

Definition main_v1 (texto : str) : saida_v1 :=
  match enviar_prompt texto with
  | None => FalhaOraculo
  | Some resposta_json =>
    if negb (str_truthy resposta_json) then Saiu 1
    else
      match parse_json resposta_json with
      | JNull => Saiu 1
      | parsed =>
        match py_in (lit "decretos") parsed with
        | Raise e => Levantou e
        | Ok false => Saiu 1
        | Ok true =>
          match get_default (lit "decretos") (JArr []) parsed with
          | Ok v => Decretos v
          | Raise e => Levantou e
          end
        end
      end
  end.

(** X23: [analisador.py] reaches the construction of its tables only
    with the value found under "decretos" in a reply that is not empty
    and parses to an object; every other reply ends the run before that,
    by [exit(1)] or by an exception. *)
Theorem main_v1_decretos_iff : forall texto v,
  main_v1 texto = Decretos v <->
  exists r d,
    enviar_prompt texto = Some r /\ r <> [] /\
    json_loads r = Some (JObj d) /\ lookup (lit "decretos") d = Some v.
Proof.
  intros texto v. unfold main_v1, parse_json. split.
  - intros H. destruct (enviar_prompt texto) as [r|]; [|discriminate].
    destruct r as [|c r]; [discriminate|]. cbn [str_truthy negb] in H.
    destruct (json_loads (c :: r)) as [dados|] eqn:Hj; [|discriminate].
    destruct dados as [| | | |s|l|d]; try discriminate.
    + simpl in H. destruct (contains (lit "decretos") s); discriminate.
    + simpl in H. destruct (List.existsb _ l); discriminate.
    + simpl in H. destruct (lookup (lit "decretos") d) as [x|] eqn:Hl;
        [|discriminate].
      injection H as <-. exists (c :: r), d.
      split; [reflexivity|]. split; [discriminate|]. split; [exact Hj|exact Hl].
  - intros [r [d [Hr [Hne [Hj Hl]]]]]. rewrite Hr.
    destruct r as [|c r]; [contradiction|]. cbn [str_truthy negb].
    rewrite Hj. simpl. now rewrite Hl.
Qed.

End DriverV1.

(** * The main block of [analisador_ver3.py] *)

Section MainVer3.

Variable nd_extra : char -> option N.
Variable repr_container : json -> str.
Variable set_order : list str -> list str.
Variable gemini : str -> option str.
Variable json_loads : str -> option json.

(** From the text of the corpus to the three tables handed to
    [to_csv]; [None] when [if lista_final_decretos:] fails and nothing is
    written. *)
Definition main_ver3 (texto : str) : res (option (table * table * table)) :=
  st <- extrair_ver3 gemini json_loads texto ;;
  match lista st with
  | [] => Ok None
  | _ :: _ =>
    quadros <- reconcile nd_extra repr_container set_order (lista st) ;;
    Ok (Some quadros)
  end.

(** X24: [analisador_ver3.py] writes its three files only when at least
    one record was extracted, and then Table 1 is not empty and has one
    row for each record extracted by the loop; it writes nothing exactly
    when the loop completes with no record. *)
Theorem main_ver3_tables : forall texto,
  (main_ver3 texto = Ok None <->
   exists st, extrair_ver3 gemini json_loads texto = Ok st /\ lista st = []) /\
  (forall q1 q2 q3,
     main_ver3 texto = Ok (Some (q1, q2, q3)) ->
     q1 <> [] /\
     exists st, extrair_ver3 gemini json_loads texto = Ok st /\
                List.length q1 = List.length (lista st)).
Proof.
  intros texto. unfold main_ver3, bind. split.
  - split.
    + intros H. destruct (extrair_ver3 gemini json_loads texto) as [st|];
        [|discriminate].
      exists st. split; [reflexivity|].
      destruct (lista st) as [|d ds]; [reflexivity|].
      destruct (reconcile _ _ _ _); discriminate.
    + intros [st [-> Hl]]. now rewrite Hl.
  - intros q1 q2 q3 H.
    destruct (extrair_ver3 gemini json_loads texto) as [st|]; [|discriminate].
    destruct (lista st) as [|d ds] eqn:Hl; [discriminate|].
    destruct (reconcile nd_extra repr_container set_order (d :: ds))
      as [[[a1 a2] a3]|] eqn:Hr; [|discriminate].
    injection H as <- <- <-.
    destruct (reconcile_shape nd_extra repr_container set_order _ _ _ _ Hr)
      as [Hlen _].
    split.
    + intros ->. simpl in Hlen. discriminate.
    + exists st. split; [reflexivity|]. now rewrite Hl.
Qed.

End MainVer3.

(** ** More instances *)

Lemma limpar_ver2_unfences_witness :
  strip (lit "{}") = lit "{}" /\
  limpar_ver2 (lit "```json" ++ [10] ++ lit "{}" ++ [10] ++ lit "```") = lit "{}" /\
  limpar_ver2 (lit "```" ++ [10] ++ lit "{}" ++ [10] ++ lit "```") = lit "{}".
Proof.
  split; [reflexivity|]. apply (limpar_ver2_unfences (lit "{}")). reflexivity.
Defined.



Lemma main_ver3_tables_witness :
  exists q1 q2 q3,
    main_ver3 nd_arabic repr_brackets set_first gemini_falha_2 loads_objetos
      texto_tres_decretos = Ok (Some (q1, q2, q3)) /\
    q1 <> [].
Proof.
  eexists _, _, _. split; [vm_compute; reflexivity|].
  eapply (proj2 (main_ver3_tables nd_arabic repr_brackets set_first
                   gemini_falha_2 loads_objetos texto_tres_decretos)).
  vm_compute. reflexivity.
Defined.
